(** * job_hunter.py: relevance filter, date normaliser, deduplication and
      novelty tracking of [JobHunter], embedded and verified.

    Conventions of the embedding.
    - A Python [str] is a [string] whose characters are the code points
      U+0000..U+00FF; [lower], [strip], [\d] and [\s] are Python's
      restricted to that range.
    - A naive [datetime] is the number of microseconds since
      0001-01-01T00:00:00 ([datetime.min]); a [timedelta] is a number of
      microseconds.  Both are [Z], with the range checks of CPython written
      out: an out-of-range value raises [OverflowError].
    - A function that can raise returns a [result].
    - [self.seen_jobs] is a [gmap] from identity key to entry, an entry being
      the inner JSON object, a [gmap] from field name to string. *)

From Stdlib Require Import ZArith NArith Ascii String List Bool Lia.
From Stdlib Require Import DecimalString Permutation.
From stdpp Require Import base option list gmap strings fin_maps fin_sets.

Local Open Scope string_scope.

(** ** Python builtins used by the program *)

Module Py.

(** Exception classes that occur in the modelled code. *)
Inductive exn : Type :=
| OverflowError
| TypeError
| JSONDecodeError
| IOError
| UnicodeDecodeError.

Inductive result (A : Type) : Type :=
| Ret (a : A)
| Raise (e : exn).
Arguments Ret {A} a.
Arguments Raise {A} e.

Definition bind {A B} (r : result A) (k : A -> result B) : result B :=
  match r with
  | Ret a => k a
  | Raise e => Raise e
  end.

(** [c.lower()] on one code point below 256: A-Z and the Latin-1 capitals
    (U+00C0..U+00DE without the multiplication sign U+00D7) move up by 32. *)
Definition lower_char (c : ascii) : ascii :=
  let n := N_of_ascii c in
  if ((65 <=? n) && (n <=? 90)
      || (192 <=? n) && (n <=? 222) && negb (n =? 215))%N
  then ascii_of_N (n + 32)
  else c.

Fixpoint lower (s : string) : string :=
  match s with
  | EmptyString => EmptyString
  | String c t => String (lower_char c) (lower t)
  end.

(** [str.isspace] on one code point below 256, which is also the class
    [\s] of [re] on [str] patterns. *)
Definition is_space (c : ascii) : bool :=
  let n := N_of_ascii c in
  ((9 <=? n) && (n <=? 13) || (28 <=? n) && (n <=? 32)
   || (n =? 133) || (n =? 160))%N.

(** The class [\d] below 256: the ASCII digits. *)
Definition is_digit (c : ascii) : bool :=
  let n := N_of_ascii c in ((48 <=? n) && (n <=? 57))%N.

Fixpoint lstrip (s : string) : string :=
  match s with
  | EmptyString => EmptyString
  | String c t => if is_space c then lstrip t else s
  end.

Fixpoint rstrip (s : string) : string :=
  match s with
  | EmptyString => EmptyString
  | String c t =>
      match rstrip t with
      | EmptyString => if is_space c then EmptyString else String c EmptyString
      | t' => String c t'
      end
  end.

Definition strip (s : string) : string := rstrip (lstrip s).

Fixpoint startswith (p s : string) : bool :=
  match p, s with
  | EmptyString, _ => true
  | String _ _, EmptyString => false
  | String a p', String b s' => Ascii.eqb a b && startswith p' s'
  end.

(** [p in s] for two strings: [p] occurs in [s] as a substring. *)
Fixpoint str_in (p s : string) : bool :=
  startswith p s ||
  match s with
  | EmptyString => false
  | String _ t => str_in p t
  end.

(** Truthiness of a string: non-empty. *)
Definition truthy (s : string) : bool :=
  match s with EmptyString => false | String _ _ => true end.

(** [int(s)] for a string of ASCII digits. *)
Definition digit_val (c : ascii) : Z := Z.of_N (N_of_ascii c) - 48.

Definition int_of_digits (s : string) : Z :=
  fold_left (fun acc c => 10 * acc + digit_val c)%Z (list_ascii_of_string s) 0%Z.

End Py.

Import Py.

(** ** Keyword configuration (class attributes of [JobHunter]) *)

Definition DESIRED_KEYWORDS : list string :=
  [ "growth"; "community"; "marketing"; "communication"; "bd";
    "business development"; "partnerships"; "partner"; "relations";
    "social media"; "content"; "brand"; "ambassador"; "advocate";
    "engagement"; "ecosystem"; "strategy"; "lead"; "manager";
    "head of"; "director"; "defi"; "dune"; "analytics"; "data analyst";
    "research"; "writer"; "editor"; "pr"; "public relations" ].

Definition EXCLUDE_KEYWORDS : list string :=
  [ "engineer"; "engineering"; "developer"; "solidity"; "rust";
    "backend"; "frontend"; "full stack"; "fullstack"; "smart contract";
    "devops"; "sre"; "infrastructure"; "architect"; "software";
    "python developer"; "java"; "golang"; "node.js"; "react developer";
    "blockchain developer"; "protocol engineer"; "security engineer";
    "qa engineer"; "test engineer"; "mobile developer"; "ios";
    "android developer" ].

(** The two inline lists of [is_relevant_job]. *)
Definition CARVE_OUT : list string := [ "engineer"; "engineering" ].
Definition RESCUE_TERMS : list string :=
  [ "marketing"; "growth"; "community"; "bd"; "partnerships" ].

(** [x in l] for a list of strings. *)
Definition list_in (x : string) (l : list string) : bool :=
  existsb (String.eqb x) l.

(** ** Relevance filter *)

(** The exclusion loop: [Some false] stands for [return False], [None] for
    the loop running to its end. *)
Fixpoint exclusion_loop (text : string) (kws : list string) : option bool :=
  match kws with
  | [] => None
  | keyword :: rest =>
      if str_in keyword text then
        if list_in keyword CARVE_OUT
           && existsb (fun k => str_in k text) RESCUE_TERMS
        then exclusion_loop text rest
        else Some false
      else exclusion_loop text rest
  end.

Fixpoint inclusion_loop (text : string) (kws : list string) : option bool :=
  match kws with
  | [] => None
  | keyword :: rest =>
      if str_in keyword text then Some true else inclusion_loop text rest
  end.

Definition is_relevant_job (title description : string) : bool :=
  let text := lower (title +:+ " " +:+ description) in
  match exclusion_loop text EXCLUDE_KEYWORDS with
  | Some b => b
  | None =>
      match inclusion_loop text DESIRED_KEYWORDS with
      | Some b => b
      | None => false
      end
  end.

(** ** Regular expressions: the fragment of [re] the date patterns use

    A backtracking matcher in continuation-passing style.  Alternatives are
    tried left to right and quantifiers are greedy, as in [re]; the
    continuation receives the rest of the text and the text captured by
    group 1 so far. *)

Module Re.

Inductive regex : Type :=
| Lit (l : string)                 (* a literal run of characters *)
| Plus (cls : ascii -> bool)       (* [c+] for a character class *)
| Star (cls : ascii -> bool)       (* [c*] for a character class *)
| Seq (r1 r2 : regex)
| Alt (r1 r2 : regex)              (* [r1|r2] *)
| Opt (r : regex)                  (* [(?:r)?] *)
| Group (r : regex).               (* the capturing group [(r)] *)

Fixpoint drop_chars (n : nat) (s : string) : string :=
  match n, s with
  | O, _ => s
  | S _, EmptyString => EmptyString
  | S n', String _ t => drop_chars n' t
  end.

Fixpoint take_chars (n : nat) (s : string) : string :=
  match n, s with
  | O, _ => EmptyString
  | S _, EmptyString => EmptyString
  | S n', String c t => String c (take_chars n' t)
  end.

(** What was consumed between the text [s] and its suffix [s']. *)
Definition consumed (s s' : string) : string :=
  take_chars (String.length s - String.length s') s.

Section Matcher.
Context {A : Type}.

(** Greedy [cls*]: take one more character first, give it back when the
    continuation fails. *)
Fixpoint star_cls (cls : ascii -> bool) (s : string)
         (k : string -> option A) : option A :=
  match s with
  | EmptyString => k EmptyString
  | String c t =>
      if cls c then
        match star_cls cls t k with
        | Some a => Some a
        | None => k s
        end
      else k s
  end.

Fixpoint rmatch (r : regex) (s : string) (cap : option string)
         (k : string -> option string -> option A) : option A :=
  match r with
  | Lit l =>
      if startswith l s then k (drop_chars (String.length l) s) cap
      else None
  | Plus cls =>
      match s with
      | EmptyString => None
      | String c t =>
          if cls c then star_cls cls t (fun s' => k s' cap) else None
      end
  | Star cls => star_cls cls s (fun s' => k s' cap)
  | Seq r1 r2 =>
      rmatch r1 s cap (fun s' cap' => rmatch r2 s' cap' k)
  | Alt r1 r2 =>
      match rmatch r1 s cap k with
      | Some a => Some a
      | None => rmatch r2 s cap k
      end
  | Opt r1 =>
      match rmatch r1 s cap k with
      | Some a => Some a
      | None => k s cap
      end
  | Group r1 =>
      rmatch r1 s cap (fun s' _ => k s' (Some (consumed s s')))
  end.
End Matcher.

(** A match object, reduced to what the program reads from it. *)
Record match_obj : Type := { group1 : option string }.

(** [re.search(r, s)]: the match at the leftmost position that has one. *)
Fixpoint search (r : regex) (s : string) : option match_obj :=
  match rmatch r s None (fun _ cap => Some {| group1 := cap |}) with
  | Some m => Some m
  | None =>
      match s with
      | EmptyString => None
      | String _ t => search r t
      end
  end.

End Re.

Import Re.

(** ** [datetime] and [timedelta] *)

Definition datetime : Type := Z.

Local Open Scope Z_scope.

Definition us_per_hour : Z := 3600000000.
Definition us_per_day : Z := 86400000000.

(** [datetime.max] is 9999-12-31T23:59:59.999999, day 3652059 of the
    proleptic calendar. *)
Definition datetime_max : Z := 3652059 * us_per_day - 1.

(** The constructor of [timedelta]: the normalised number of days must have
    magnitude at most 999999999. *)
Definition mk_timedelta (us : Z) : result Z :=
  let days := us / us_per_day in
  if (-999999999 <=? days) && (days <=? 999999999) then Ret us
  else Raise OverflowError.

Definition timedelta_days (d : Z) : result Z := mk_timedelta (d * us_per_day).
Definition timedelta_weeks (w : Z) : result Z := mk_timedelta (w * 7 * us_per_day).
Definition timedelta_hours (h : Z) : result Z := mk_timedelta (h * us_per_hour).

(** [t - d] for a datetime and a timedelta. *)
Definition datetime_sub (t : datetime) (d : Z) : result datetime :=
  let r := t - d in
  if (0 <=? r) && (r <=? datetime_max) then Ret r else Raise OverflowError.

(** ** Recency test *)

Definition is_recent (now : datetime) (max_age_days : Z)
           (posted_date : option datetime) : result bool :=
  match posted_date with
  | None => Ret true
  | Some d =>
      bind (timedelta_days max_age_days) (fun td =>
      bind (datetime_sub now td) (fun cutoff =>
      Ret (cutoff <=? d)))
  end.

(** [self.max_age_days] as set by [__init__]. *)
Definition default_max_age_days : Z := 30.

(** ** Date normaliser *)

Inductive time_unit : Type := Days | Weeks | Months | Hours.

Definition unit_pattern (units : regex) : regex :=
  Seq (Group (Plus is_digit))
      (Seq (Star is_space)
           (Seq units (Seq (Star is_space) (Opt (Lit "ago"))))).

Definition day_pattern : regex := unit_pattern (Alt (Lit "day") (Lit "d")).
Definition week_pattern : regex := unit_pattern (Alt (Lit "week") (Lit "w")).
Definition month_pattern : regex := unit_pattern (Alt (Lit "month") (Lit "mo")).
Definition hour_pattern : regex :=
  unit_pattern (Alt (Lit "hour") (Alt (Lit "hr") (Lit "h"))).

Definition patterns : list (regex * time_unit) :=
  [ (day_pattern, Days); (week_pattern, Weeks);
    (month_pattern, Months); (hour_pattern, Hours) ].

Definition now_markers : list string :=
  [ "today"; "just now"; "new"; "just posted" ]%string.

Definition date_formats : list string :=
  [ "%Y-%m-%d"; "%d/%m/%Y"; "%m/%d/%Y"; "%B %d, %Y"; "%b %d, %Y";
    "%d %B %Y"; "%d %b %Y" ]%string.

(** [now - timedelta(...)] for a matched value and its unit. *)
Definition ago (now : datetime) (value : Z) (u : time_unit) : result datetime :=
  match u with
  | Days => bind (timedelta_days value) (datetime_sub now)
  | Weeks => bind (timedelta_weeks value) (datetime_sub now)
  | Months => bind (timedelta_days (value * 30)) (datetime_sub now)
  | Hours => bind (timedelta_hours value) (datetime_sub now)
  end.

(** The body of the pattern loop for a match [m]. *)
Definition on_match (now : datetime) (m : match_obj) (u : time_unit)
  : result (option datetime) :=
  match group1 m with
  | None => Raise TypeError
  | Some ds => bind (ago now (int_of_digits ds) u) (fun t => Ret (Some t))
  end.

(** The loop over [patterns]: [None] when it runs to its end. *)
Fixpoint pattern_loop (now : datetime) (date_str : string)
         (pats : list (regex * time_unit)) : option (result (option datetime)) :=
  match pats with
  | [] => None
  | (pattern, u) :: rest =>
      match search pattern date_str with
      | Some m => Some (on_match now m u)
      | None => pattern_loop now date_str rest
      end
  end.

Section DateNormaliser.

(** [datetime.strptime(date_str, fmt)], a library function the embedding
    does not interpret: [None] stands for its [ValueError]. *)
Variable strptime : string -> string -> option datetime.

Fixpoint format_loop (date_str : string) (fmts : list string)
  : option datetime :=
  match fmts with
  | [] => None
  | fmt :: rest =>
      match strptime date_str fmt with
      | Some t => Some t
      | None => format_loop date_str rest
      end
  end.

Definition parse_relative_date (now : datetime) (date_str : string)
  : result (option datetime) :=
  if negb (truthy date_str) then Ret None
  else
    let date_str := strip (lower date_str) in
    if existsb (fun x => str_in x date_str) now_markers then Ret (Some now)
    else if str_in "yesterday" date_str then
      bind (bind (timedelta_days 1) (datetime_sub now))
           (fun t => Ret (Some t))
    else
      match pattern_loop now date_str patterns with
      | Some r => r
      | None => Ret (format_loop date_str date_formats)
      end.

End DateNormaliser.

Local Close Scope Z_scope.

(** ** Data model *)

Record JobOffer : Type := mkJobOffer {
  title : string;
  company : string;
  url : string;
  location : string;
  posted_date : option datetime;
  description : string;
  source : string;
  salary : option string;
  tags : list string;
  is_new : bool;
  first_seen : option string
}.

(** The constructor as every scraper calls it: [is_new] and [first_seen] are
    left at the defaults of the dataclass. *)
Definition new_offer (t c u l : string) (d : option datetime)
           (descr src : string) (sal : option string) (tg : list string)
  : JobOffer :=
  {| title := t; company := c; url := u; location := l; posted_date := d;
     description := descr; source := src; salary := sal; tags := tg;
     is_new := true; first_seen := None |}.

(** A posting as a scraper builds it, with only title, company and url
    chosen. *)
Definition offer (t c u : string) : JobOffer :=
  new_offer t c u "Remote" None "" "web3.career" None [].

(** The registry: identity key to entry, an entry being the inner JSON
    object. *)
Abbreviation registry := (gmap string (gmap string string)).

(** ** Deduplicator (the loop at the end of [scrape_all]) *)

Fixpoint dedup_loop (seen_urls : gset string) (unique_jobs : list JobOffer)
         (jobs : list JobOffer) : list JobOffer :=
  match jobs with
  | [] => unique_jobs
  | job :: rest =>
      if truthy (url job) && bool_decide (url job ∉ seen_urls) then
        dedup_loop ({[ url job ]} ∪ seen_urls) (unique_jobs ++ [job]) rest
      else if negb (truthy (url job)) then
        dedup_loop seen_urls (unique_jobs ++ [job]) rest
      else dedup_loop seen_urls unique_jobs rest
  end.

Definition dedupe (jobs : list JobOffer) : list JobOffer :=
  dedup_loop ∅ [] jobs.

(** The restriction the specification describes, position by position: the
    posting at index [i] stays when its url is empty or does not occur among
    the urls of the postings before it. *)
Definition keeps (jobs : list JobOffer) (i : nat) (job : JobOffer) : bool :=
  negb (truthy (url job)) || bool_decide (url job ∉ url <$> take i jobs).

Definition first_occurrences (jobs : list JobOffer) : list JobOffer :=
  concat (imap (fun i job => if keeps jobs i job then [job] else []) jobs).

(** The non-empty urls of a list of postings, in order. *)
Definition keyed_urls (jobs : list JobOffer) : list string :=
  filter (fun u : string => u <> "") (url <$> jobs).

(** The postings without a url. *)
Definition keyless (jobs : list JobOffer) : list JobOffer :=
  filter (fun job => url job = "") jobs.

(** ** Novelty tracker *)

Definition job_key (job : JobOffer) : string :=
  if truthy (url job) then url job
  else title job +:+ "|" +:+ company job.

Definition set_seen (job : JobOffer) (fs : string) : JobOffer :=
  {| title := title job; company := company job; url := url job;
     location := location job; posted_date := posted_date job;
     description := description job; source := source job;
     salary := salary job; tags := tags job;
     is_new := false; first_seen := Some fs |}.

(** One iteration of [_mark_seen_jobs]. *)
Definition mark_job (seen_jobs : registry) (job : JobOffer) : JobOffer :=
  match seen_jobs !! job_key job with
  | Some e => set_seen job (default "Unknown" (e !! "first_seen"))
  | None => job
  end.

Definition _mark_seen_jobs (seen_jobs : registry) (jobs : list JobOffer)
  : list JobOffer :=
  map (mark_job seen_jobs) jobs.

Definition new_entry (today : string) (job : JobOffer) : gmap string string :=
  <[ "first_seen" := today ]>
    (<[ "title" := title job ]> (<[ "company" := company job ]> ∅)).

(** One iteration of the loop of [_save_seen_jobs]. *)
Definition save_job (today : string) (seen_jobs : registry) (job : JobOffer)
  : registry :=
  match seen_jobs !! job_key job with
  | Some _ => seen_jobs
  | None => <[ job_key job := new_entry today job ]> seen_jobs
  end.

(** ** The registry file *)

Inductive json_scalar : Type :=
| JNull
| JBool (b : bool)
| JNum (z : Z)
| JStr (s : string).

(** What [json.load] can yield: an object of entries, as [_save_seen_jobs]
    writes it, or a document that is no object. *)
Inductive json_doc : Type :=
| JObject (o : registry)
| JArray (items : list json_scalar)
| JScalar (v : json_scalar).

(** The state of [seen_jobs.json], by what opening and parsing it does. *)
Inductive file_state : Type :=
| Missing                (* [os.path.exists] is false *)
| Unreadable             (* [open] or the read raises [OSError] *)
| NotText                (* the bytes do not decode: [UnicodeDecodeError] *)
| NotJson                (* the text is no JSON: [json.JSONDecodeError] *)
| Holds (d : json_doc).  (* the text parses to [d] *)

Definition path_exists (f : file_state) : bool :=
  match f with Missing => false | _ => true end.

(** [with open(SEEN_JOBS_FILE, 'r') as f: json.load(f)]. *)
Definition open_and_load (f : file_state) : result json_doc :=
  match f with
  | Missing => Raise IOError
  | Unreadable => Raise IOError
  | NotText => Raise UnicodeDecodeError
  | NotJson => Raise JSONDecodeError
  | Holds d => Ret d
  end.

Definition _load_seen_jobs (f : file_state) : result json_doc :=
  if path_exists f then
    match open_and_load f with
    | Raise JSONDecodeError => Ret (JObject ∅)
    | Raise IOError => Ret (JObject ∅)
    | r => r
    end
  else Ret (JObject ∅).

(** [_save_seen_jobs]: the updated registry and the file it writes. *)
Definition _save_seen_jobs (seen_jobs : registry) (jobs : list JobOffer)
           (today : string) : registry * file_state :=
  let seen_jobs' := foldl (save_job today) seen_jobs jobs in
  (seen_jobs', Holds (JObject seen_jobs')).

(** ** The end of [scrape_all]: deduplicate, mark, save *)

Record run_result : Type := {
  run_jobs : list JobOffer;
  run_seen : registry;
  run_file : file_state
}.

Definition finish_run (seen_jobs : registry) (collected : list JobOffer)
           (today : string) : run_result :=
  let jobs := dedupe collected in
  let jobs := _mark_seen_jobs seen_jobs jobs in
  let '(seen_jobs', file) := _save_seen_jobs seen_jobs jobs today in
  {| run_jobs := jobs; run_seen := seen_jobs'; run_file := file |}.

(** ** The source scrapers: [scrape_remote3]

    A card stands for what the four [select_one] calls of the loop body
    find in one element of the page: the stripped text of the title, company
    and date elements and the [href] of the first link, [None] where
    [select_one] finds nothing. *)

Record card : Type := {
  card_title : option string;
  card_href : option string;
  card_company : option string;
  card_date : option string
}.

Section Scraper.

(** [urllib.parse.urljoin] and [datetime.strptime], library functions the
    embedding does not interpret. *)
Variable urljoin : string -> string -> string.
Variable strptime : string -> string -> option datetime.

(** The body of the loop for one card; [now_parse] and [now_recent] are the
    clock readings of [parse_relative_date] and of [is_recent].  [Ret None]
    stands for [continue] and for a card that fails the recency test. *)
Definition remote3_card (max_age_days : Z) (now_parse now_recent : datetime)
           (c : card) : result (option JobOffer) :=
  match card_title c with
  | None => Ret None
  | Some t =>
      if negb (is_relevant_job t "") then Ret None
      else
        let job_url :=
          match card_href c with
          | Some h => urljoin "https://remote3.co" h
          | None => ""
          end in
        let company_name :=
          match card_company c with Some x => x | None => "Unknown" end in
        let date_str :=
          match card_date c with Some x => x | None => "" end in
        bind (parse_relative_date strptime now_parse date_str)
          (fun posted =>
             bind (is_recent now_recent max_age_days posted)
               (fun recent =>
                  if recent
                  then Ret (Some (new_offer t company_name job_url "Remote"
                                    posted "" "remote3.co" None []))
                  else Ret None))
  end.

(** One iteration with its [try ... except Exception: continue]: the state
    is [self.jobs] and [count]. *)
Definition remote3_step (max_age_days : Z)
           (st : list JobOffer * nat) (x : card * (datetime * datetime))
  : list JobOffer * nat :=
  match remote3_card max_age_days (fst (snd x)) (snd (snd x)) (fst x) with
  | Ret (Some job) => ((fst st ++ [job])%list, S (snd st))
  | Ret None => st
  | Raise _ => st
  end.

(** [scrape_remote3]: [page] is [None] when [fetch_page] returns [None], else
    the cards that [soup.select] yields; [clock i] gives the two clock
    readings made for the card at index [i].  The result is [self.jobs] and
    the count that is printed. *)
Definition scrape_remote3 (max_age_days : Z) (page : option (list card))
           (clock : nat -> datetime * datetime) (jobs : list JobOffer)
  : list JobOffer * nat :=
  match page with
  | None => (jobs, O)
  | Some cards =>
      foldl (remote3_step max_age_days) (jobs, O)
            (imap (fun i c => (c, clock i)) (take 50 cards))
  end.

(** What the loop body has checked when it builds a posting [job] from the
    card [c]. *)
Definition built_from (max_age_days : Z) (c : card)
           (now_parse now_recent : datetime) (job : JobOffer) : Prop :=
  card_title c = Some (title job)
  /\ is_relevant_job (title job) "" = true
  /\ parse_relative_date strptime now_parse (default "" (card_date c))
     = Ret (posted_date job)
  /\ is_recent now_recent max_age_days (posted_date job) = Ret true
  /\ company job = default "Unknown" (card_company c)
  /\ url job = from_option (urljoin "https://remote3.co") "" (card_href c)
  /\ location job = "Remote" /\ description job = ""
  /\ source job = "remote3.co" /\ salary job = None /\ tags job = []
  /\ is_new job = true /\ first_seen job = None.

End Scraper.

(** ** The report ([generate_html_report]) and the summary of [scrape_all] *)

(** [sum(1 for job in self.jobs if job.is_new)]. *)
Definition new_jobs_count (jobs : list JobOffer) : nat :=
  foldr (fun job n => if is_new job then S n else n) O jobs.

Inductive category : Type :=
| Growth | Marketing | Community | BdPartnerships | Other.

#[global] Instance category_eq_dec : EqDecision category.
Proof. solve_decision. Defined.

Definition MARKETING_TERMS : list string :=
  [ "marketing"; "brand"; "content"; "social" ].
Definition BD_TERMS : list string :=
  [ "bd"; "business development"; "partner"; "relations" ].

(** The [if]/[elif] chain of the grouping loop. *)
Definition categorize (job_title : string) : category :=
  let title_lower := lower job_title in
  if str_in "growth" title_lower then Growth
  else if existsb (fun k => str_in k title_lower) MARKETING_TERMS then Marketing
  else if str_in "community" title_lower then Community
  else if existsb (fun k => str_in k title_lower) BD_TERMS then BdPartnerships
  else Other.

(** [categories[c].append(job)], the dict of five lists being a function of
    the category. *)
Definition cat_append (c : category) (job : JobOffer)
           (cats : category -> list JobOffer) : category -> list JobOffer :=
  fun c' => if decide (c' = c) then (cats c' ++ [job])%list else cats c'.

Definition group_jobs (sorted_jobs : list JobOffer)
  : category -> list JobOffer :=
  foldl (fun cats job => cat_append (categorize (title job)) job cats)
        (fun _ => []) sorted_jobs.

(** [str(n)] for an integer. *)
Definition str_of_int (n : Z) : string :=
  NilZero.string_of_int (Z.to_int n).

(** [(now - posted).days]: the floor of the difference in days. *)
Definition days_between (now posted : datetime) : Z :=
  ((now - posted) / us_per_day)%Z.

(** The date badge of a card: its class and its text. *)
Definition date_badge (now : datetime) (posted : option datetime)
  : string * string :=
  match posted with
  | None => ("date-older", "Unknown")
  | Some d =>
      let days_ago := days_between now d in
      if (days_ago <=? 3)%Z then
        ("date-new",
         if (days_ago =? 0)%Z then "New" else str_of_int days_ago +:+ "d ago")
      else if (days_ago <=? 14)%Z then
        ("date-recent", str_of_int days_ago +:+ "d ago")
      else ("date-older", str_of_int days_ago +:+ "d ago")
  end.

(** ** Vocabulary of the statements *)

(** A string of ASCII digits. *)
Fixpoint all_digits (s : string) : bool :=
  match s with
  | EmptyString => true
  | String c t => is_digit c && all_digits t
  end.

(** A string of whitespace. *)
Fixpoint all_space (s : string) : bool :=
  match s with
  | EmptyString => true
  | String c t => is_space c && all_space t
  end.

(** The letters a unit pattern needs after the number: each alternative of
    its unit group begins with them. *)
Definition unit_key (u : time_unit) : string :=
  match u with
  | Days => "d"
  | Weeks => "w"
  | Months => "mo"
  | Hours => "h"
  end.

(** The unit group [units] asks for the letters [key] and nothing else. *)
Definition keyed_by (units : regex) (key : string) : Prop :=
  (forall (s : string) (cap : option string)
          (k : string -> option string -> option match_obj) (a : match_obj),
      rmatch units s cap k = Some a -> startswith key s = true)
  /\ (forall (s : string) (cap : option string)
             (k : string -> option string -> option match_obj),
        startswith key s = true ->
        (forall s', is_Some (k s' cap)) ->
        is_Some (rmatch units s cap k)).

(** A pattern without capturing group. *)
Fixpoint no_group (r : regex) : bool :=
  match r with
  | Lit _ | Plus _ | Star _ => true
  | Seq r1 r2 | Alt r1 r2 => no_group r1 && no_group r2
  | Opt r1 => no_group r1
  | Group _ => false
  end.


(** * Verification *)

(** ** Relevance filter *)

Section Relevance.

Lemma list_in_spec (x : string) (l : list string) :
  list_in x l = true <-> x ∈ l.
Proof.
  unfold list_in. rewrite existsb_exists, list_elem_of_In. split.
  - intros (y & Hy & Heq). apply String.eqb_eq in Heq. by subst.
  - intros Hx. exists x. split; [done | apply String.eqb_refl].
Qed.

(** A match of an exclusion keyword outside the carve-out rejects, whatever
    else the text contains. *)
Lemma exclusion_outside_carve_out (text kw : string) (kws : list string) :
  kw ∈ kws -> list_in kw CARVE_OUT = false -> str_in kw text = true ->
  exclusion_loop text kws = Some false.
Proof.
  intros Hin Hcarve Hmatch. induction kws as [|k rest IH].
  - by apply elem_of_nil in Hin.
  - apply elem_of_cons in Hin as [<- | Hin]; cbn [exclusion_loop].
    + by rewrite Hmatch, Hcarve.
    + destruct (str_in k text); [|by apply IH].
      destruct (list_in k CARVE_OUT && _); [by apply IH | done].
Qed.

Lemma rejected_outside_carve_out (t d kw : string) :
  kw ∈ EXCLUDE_KEYWORDS -> list_in kw CARVE_OUT = false ->
  str_in kw (lower (t +:+ " " +:+ d)) = true ->
  is_relevant_job t d = false.
Proof.
  intros Hin Hcarve Hmatch. unfold is_relevant_job.
  by rewrite (exclusion_outside_carve_out _ kw).
Qed.

Lemma protocol_engineer_excluded :
  "protocol engineer" ∈ EXCLUDE_KEYWORDS
  /\ list_in "protocol engineer" CARVE_OUT = false.
Proof. split; [|reflexivity]. apply list_in_spec. reflexivity. Qed.

(** C1 as the specification words it does not hold: the first title is
    rejected. *)
Lemma relevance_rescue_counterexample :
  ~ (is_relevant_job "Senior Protocol Engineer, Growth" "" = true
     /\ is_relevant_job "Backend Engineer" "" = false).
Proof. intros [H _]. vm_compute in H. discriminate. Qed.

(** C1, amended: with an empty description, "Senior Protocol Engineer,
    Growth" is rejected, because besides 'engineer' (waived by the rescue
    term 'growth') the exclusion keyword 'protocol engineer' matches and it
    is outside the carve-out; "Senior Engineer, Growth", whose only
    exclusion match is 'engineer', is accepted through the waiver and the
    inclusion keyword 'growth'; "Backend Engineer" is rejected. *)
Theorem relevance_rescue_carve_out :
  let text := lower ("Senior Protocol Engineer, Growth" +:+ " " +:+ "") in
  str_in "engineer" text = true
  /\ existsb (fun k => str_in k text) RESCUE_TERMS = true
  /\ str_in "protocol engineer" text = true
  /\ list_in "protocol engineer" CARVE_OUT = false
  /\ is_relevant_job "Senior Protocol Engineer, Growth" "" = false
  /\ exclusion_loop (lower ("Senior Engineer, Growth" +:+ " " +:+ ""))
       EXCLUDE_KEYWORDS = None
  /\ is_relevant_job "Senior Engineer, Growth" "" = true
  /\ existsb (fun k => str_in k (lower ("Backend Engineer" +:+ " " +:+ "")))
       RESCUE_TERMS = false
  /\ is_relevant_job "Backend Engineer" "" = false.
Proof. vm_compute. repeat split. Qed.

End Relevance.

(** ** Dates *)

Section Dates.

Local Open Scope Z_scope.

Lemma us_per_day_val : us_per_day = 86400000000.
Proof. reflexivity. Qed.

Lemma datetime_max_val : datetime_max = 315537897599999999.
Proof. reflexivity. Qed.

Lemma timedelta_days_ok (d : Z) :
  -999999999 <= d <= 999999999 -> timedelta_days d = Ret (d * us_per_day).
Proof.
  intros Hd. unfold timedelta_days, mk_timedelta.
  rewrite Z.div_mul by (rewrite us_per_day_val; lia).
  destruct (Z.leb_spec (-999999999) d); [|lia].
  destruct (Z.leb_spec d 999999999); [done | lia].
Qed.

Lemma datetime_sub_ok (t d : Z) :
  0 <= t - d <= datetime_max -> datetime_sub t d = Ret (t - d).
Proof.
  intros Hr. unfold datetime_sub.
  destruct (Z.leb_spec 0 (t - d)); [|lia].
  destruct (Z.leb_spec (t - d) datetime_max); [done | lia].
Qed.

(** A month counts as thirty days. *)
Lemma month_is_thirty_days (now value : Z) :
  ago now value Months = ago now (value * 30) Days.
Proof. reflexivity. Qed.

Lemma pattern_loop_order (now : datetime) (s : string) :
  pattern_loop now s patterns =
  match search day_pattern s with
  | Some m => Some (on_match now m Days)
  | None =>
      match search week_pattern s with
      | Some m => Some (on_match now m Weeks)
      | None =>
          match search month_pattern s with
          | Some m => Some (on_match now m Months)
          | None =>
              match search hour_pattern s with
              | Some m => Some (on_match now m Hours)
              | None => None
              end
          end
      end
  end.
Proof.
  unfold patterns. cbn [pattern_loop].
  destruct (search day_pattern s); [done|].
  destruct (search week_pattern s); [done|].
  destruct (search month_pattern s); [done|].
  by destruct (search hour_pattern s).
Qed.

Lemma search_two_days_ago :
  search day_pattern (strip (lower "2 days ago"))
  = Some {| group1 := Some "2"%string |}.
Proof. vm_compute. reflexivity. Qed.

Variable strptime : string -> string -> option datetime.

(** Past the marker tests, the result is that of the first pattern that
    matches, in the order day, week, month, hour; the formats are tried
    only when none matches. *)
Lemma parse_relative_date_units (now : datetime) (date_str : string) :
  truthy date_str = true ->
  existsb (fun x => str_in x (strip (lower date_str))) now_markers = false ->
  str_in "yesterday" (strip (lower date_str)) = false ->
  parse_relative_date strptime now date_str =
  let s := strip (lower date_str) in
  match search day_pattern s with
  | Some m => on_match now m Days
  | None =>
      match search week_pattern s with
      | Some m => on_match now m Weeks
      | None =>
          match search month_pattern s with
          | Some m => on_match now m Months
          | None =>
              match search hour_pattern s with
              | Some m => on_match now m Hours
              | None => Ret (format_loop strptime s date_formats)
              end
          end
      end
  end.
Proof.
  intros Hne Hmark Hyest. unfold parse_relative_date.
  rewrite Hne, Hmark, Hyest, pattern_loop_order. cbn [negb].
  destruct (search day_pattern _); [done|].
  destruct (search week_pattern _); [done|].
  destruct (search month_pattern _); [done|].
  by destruct (search hour_pattern _).
Qed.

Lemma parse_two_days_ago (now : datetime) :
  2 * us_per_day <= now <= datetime_max ->
  parse_relative_date strptime now "2 days ago"
  = Ret (Some (now - 2 * us_per_day)).
Proof.
  intros Hnow.
  rewrite parse_relative_date_units by (vm_compute; reflexivity).
  cbv zeta. rewrite search_two_days_ago.
  unfold on_match, ago. cbn [group1].
  replace (int_of_digits "2") with 2 by reflexivity.
  rewrite timedelta_days_ok by lia. cbn [bind].
  rewrite datetime_sub_ok; [reflexivity|].
  pose proof us_per_day_val. pose proof datetime_max_val. lia.
Qed.

(** When some unit pattern matches, the formats play no part in the
    result, whichever branch produces it. *)
Lemma relative_branch_ignores_formats
      (strptime' : string -> string -> option datetime)
      (now : datetime) (date_str : string) :
  pattern_loop now (strip (lower date_str)) patterns <> None ->
  parse_relative_date strptime now date_str
  = parse_relative_date strptime' now date_str.
Proof.
  intros Hm. unfold parse_relative_date.
  destruct (negb (truthy date_str)); [done|].
  destruct (existsb _ now_markers); [done|].
  destruct (str_in "yesterday" _); [done|].
  by destruct (pattern_loop now _ patterns).
Qed.

(** The day pattern is tried first: it decides even when a week precedes it
    in the text, and it also takes the day of a date written out. *)
Example day_before_week :
  search day_pattern "1 week 3 days ago" = Some {| group1 := Some "3"%string |}
  /\ search week_pattern "1 week 3 days ago"
     = Some {| group1 := Some "1"%string |}.
Proof. vm_compute. split; reflexivity. Qed.

Example day_pattern_on_written_date :
  search day_pattern "15 december 2024"
  = Some {| group1 := Some "15"%string |}.
Proof. vm_compute. reflexivity. Qed.

Example no_unit_in_iso_date :
  pattern_loop 0 "2024-12-05" patterns = None.
Proof. vm_compute. reflexivity. Qed.

(** C6: "2 days ago" resolves to the current time minus two days through
    the unit patterns; past the marker tests the first matching pattern in
    the order day, week, month, hour gives the result and the
    absolute formats are tried only when no pattern matches; a match of any
    pattern makes the result independent of the formats; a month is thirty
    days. *)
Theorem relative_units_take_priority :
  (forall now : datetime,
      2 * us_per_day <= now <= datetime_max ->
      search day_pattern (strip (lower "2 days ago"))
      = Some {| group1 := Some "2"%string |}
      /\ parse_relative_date strptime now "2 days ago"
         = Ret (Some (now - 2 * us_per_day)))
  /\ (forall (now : datetime) (date_str : string),
        truthy date_str = true ->
        existsb (fun x => str_in x (strip (lower date_str))) now_markers
        = false ->
        str_in "yesterday" (strip (lower date_str)) = false ->
        parse_relative_date strptime now date_str =
        let s := strip (lower date_str) in
        match search day_pattern s with
        | Some m => on_match now m Days
        | None =>
            match search week_pattern s with
            | Some m => on_match now m Weeks
            | None =>
                match search month_pattern s with
                | Some m => on_match now m Months
                | None =>
                    match search hour_pattern s with
                    | Some m => on_match now m Hours
                    | None => Ret (format_loop strptime s date_formats)
                    end
                end
            end
        end)
  /\ (forall (strptime' : string -> string -> option datetime)
             (now : datetime) (date_str : string),
        pattern_loop now (strip (lower date_str)) patterns <> None ->
        parse_relative_date strptime now date_str
        = parse_relative_date strptime' now date_str)
  /\ (forall now value : Z,
        ago now value Months = ago now (value * 30) Days).
Proof.
  split; [|split; [|split]].
  - intros now Hnow. split.
    + apply search_two_days_ago.
    + by apply parse_two_days_ago.
  - apply parse_relative_date_units.
  - apply relative_branch_ignores_formats.
  - apply month_is_thirty_days.
Qed.

(** C7: a posting is recent exactly when its date is unknown or not before
    the current time minus the window; with the window of thirty days the
    boundary is inclusive, and one day more is too old. *)
Theorem is_recent_window (now w : Z) (d : option datetime) :
  -999999999 <= w <= 999999999 ->
  0 <= now - w * us_per_day <= datetime_max ->
  (exists b : bool,
      is_recent now w d = Ret b
      /\ (b = true <->
          d = None \/ exists t, d = Some t /\ now - w * us_per_day <= t))
  /\ (w = default_max_age_days ->
      is_recent now w (Some (now - 30 * us_per_day)) = Ret true
      /\ is_recent now w (Some (now - 31 * us_per_day)) = Ret false).
Proof.
  intros Hw Hcut.
  assert (Hsome : forall t,
             is_recent now w (Some t) = Ret (now - w * us_per_day <=? t)).
  { intros t. unfold is_recent.
    rewrite timedelta_days_ok by done. cbn [bind].
    by rewrite datetime_sub_ok. }
  split.
  - destruct d as [t|].
    + exists (now - w * us_per_day <=? t). split; [apply Hsome|].
      rewrite Z.leb_le. split.
      * intros Hle. right. by exists t.
      * intros [Hnone | (t' & Heq & Hle)]; [done|]. by injection Heq as ->.
    + exists true. split; [done|]. split; [by left | done].
  - intros ->. rewrite !Hsome. unfold default_max_age_days.
    pose proof us_per_day_val as Hday. split; f_equal.
    + apply Z.leb_le. lia.
    + apply Z.leb_gt. lia.
Qed.

End Dates.

(** Closed instances of the date theorems. *)
Section DateInstances.

Local Open Scope Z_scope.

Lemma relative_units_take_priority_witness :
  parse_relative_date (fun _ _ => None) 63900000000000000 "2 days ago"
  = Ret (Some 63899827200000000)
  /\ parse_relative_date (fun _ _ => None) 63900000000000000
       "Posted 3 weeks ago"
     = on_match 63900000000000000 {| group1 := Some "3"%string |} Weeks.
Proof.
  split.
  - apply (proj1 (relative_units_take_priority (fun _ _ => None))
             63900000000000000).
    vm_compute. split; discriminate.
  - apply (proj1 (proj2 (relative_units_take_priority (fun _ _ => None)))
             63900000000000000 "Posted 3 weeks ago"%string);
      vm_compute; reflexivity.
Defined.

Lemma is_recent_window_witness :
  is_recent 63900000000000000 30 (Some 63897408000000000) = Ret true
  /\ is_recent 63900000000000000 30 (Some 63897321600000000) = Ret false.
Proof.
  apply (proj2 (is_recent_window 63900000000000000 30 None
                  ltac:(lia) ltac:(vm_compute; split; discriminate))).
  reflexivity.
Defined.

End DateInstances.

(** ** Deduplicator *)

Section Dedup.

Local Open Scope list_scope.

Implicit Types (seen : gset string) (jobs acc : list JobOffer).

Lemma truthy_true (u : string) : truthy u = true <-> u <> "".
Proof. by destruct u. Qed.

Lemma truthy_false (u : string) : truthy u = false <-> u = "".
Proof. by destruct u. Qed.

(** The accumulator only ever grows at its end. *)
Lemma dedup_loop_app seen acc jobs :
  dedup_loop seen acc jobs = acc ++ dedup_loop seen [] jobs.
Proof.
  revert seen acc. induction jobs as [|job rest IH]; intros seen acc.
  - cbn. by rewrite app_nil_r.
  - cbn [dedup_loop].
    destruct (truthy (url job) && bool_decide (url job ∉ seen)).
    + rewrite (IH _ (acc ++ [job])), (IH _ ([] ++ [job])).
      by rewrite <- app_assoc.
    + destruct (negb (truthy (url job))); [|apply IH].
      rewrite (IH _ (acc ++ [job])), (IH _ ([] ++ [job])).
      by rewrite <- app_assoc.
Qed.

Lemma dedup_loop_cons seen job rest :
  dedup_loop seen [] (job :: rest) =
  if truthy (url job) && bool_decide (url job ∉ seen)
  then job :: dedup_loop ({[ url job ]} ∪ seen) [] rest
  else if negb (truthy (url job)) then job :: dedup_loop seen [] rest
       else dedup_loop seen [] rest.
Proof.
  cbn [dedup_loop].
  destruct (truthy (url job) && bool_decide (url job ∉ seen)).
  - by rewrite dedup_loop_app.
  - destruct (negb (truthy (url job))); [|done]. by rewrite dedup_loop_app.
Qed.

Lemma keeps_head pre job rest :
  keeps (pre ++ job :: rest) (length pre + 0) job
  = negb (truthy (url job)) || bool_decide (url job ∉ url <$> pre).
Proof. unfold keeps. by rewrite Nat.add_0_r, take_app_length. Qed.

Lemma keeps_shift pre job rest i x :
  keeps (pre ++ job :: rest) (length pre + S i) x
  = keeps ((pre ++ [job]) ++ rest) (length (pre ++ [job]) + i) x.
Proof.
  replace (length pre + S i) with (length (pre ++ [job]) + i)
    by (rewrite length_app; cbn; lia).
  by rewrite <- app_assoc.
Qed.

(** The loop computes the restriction, for any prefix [pre] already
    scanned whose non-empty urls are the set [seen]. *)
Lemma dedup_loop_first_occurrences pre seen jobs :
  (forall u, u ∈ seen <-> truthy u = true /\ u ∈ url <$> pre) ->
  dedup_loop seen [] jobs =
  concat (imap (fun i job =>
                  if keeps (pre ++ jobs) (length pre + i) job
                  then [job] else []) jobs).
Proof.
  revert pre seen. induction jobs as [|job rest IH]; intros pre seen Hinv.
  - done.
  - rewrite dedup_loop_cons, imap_cons, keeps_head. cbn [concat].
    assert (Htail : forall seen',
               (forall u, u ∈ seen' <->
                          truthy u = true /\ u ∈ url <$> pre ++ [job]) ->
               dedup_loop seen' [] rest =
               concat (imap ((fun i job0 =>
                                if keeps (pre ++ job :: rest)
                                     (length pre + i) job0
                                then [job0] else []) ∘ S) rest)).
    { intros seen' Hinv'. rewrite (IH (pre ++ [job]) seen' Hinv').
      f_equal. apply imap_ext. intros i x _. cbn.
      by rewrite keeps_shift. }
    destruct (truthy (url job)) eqn:Ht; cbn [andb negb orb].
    + rewrite (bool_decide_ext (url job ∉ seen) (url job ∉ url <$> pre))
        by (rewrite Hinv; tauto).
      destruct (bool_decide (url job ∉ url <$> pre)) eqn:Hd.
      * cbn [app]. f_equal. apply Htail. intros u.
        rewrite elem_of_union, elem_of_singleton, Hinv, fmap_app,
          elem_of_app. cbn. rewrite list_elem_of_singleton.
        split; [intros [-> | [? ?]]; auto | tauto].
      * cbn [app]. apply Htail. intros u.
        apply bool_decide_eq_false in Hd.
        rewrite Hinv, fmap_app, elem_of_app. cbn.
        rewrite list_elem_of_singleton.
        split; [tauto | intros [Hu [Hin | ->]]; [done|]].
        split; [done|]. by destruct (decide (url job ∈ url <$> pre)).
    + cbn [app]. f_equal. apply Htail. intros u.
      rewrite Hinv, fmap_app, elem_of_app. cbn.
      rewrite list_elem_of_singleton.
      split; [tauto | intros [Hu [Hin | ->]]; [done | congruence]].
Qed.

Lemma dedupe_is_first_occurrences jobs : dedupe jobs = first_occurrences jobs.
Proof.
  unfold dedupe, first_occurrences.
  rewrite (dedup_loop_first_occurrences [] ∅ jobs); [done|].
  intros u. cbn. rewrite elem_of_nil, elem_of_empty. tauto.
Qed.

Lemma keyed_urls_cons job rest :
  keyed_urls (job :: rest) =
  if truthy (url job) then url job :: keyed_urls rest else keyed_urls rest.
Proof.
  unfold keyed_urls. cbn [fmap list_fmap].
  destruct (truthy (url job)) eqn:Ht.
  - apply truthy_true in Ht. by rewrite filter_cons_True.
  - apply truthy_false in Ht. rewrite filter_cons_False; [done|]. tauto.
Qed.

(** What the loop returns has pairwise distinct non-empty urls, none of
    them in [seen]. *)
Lemma dedup_loop_keyed seen jobs :
  NoDup (keyed_urls (dedup_loop seen [] jobs))
  /\ forall u, u ∈ keyed_urls (dedup_loop seen [] jobs) -> u ∉ seen.
Proof.
  revert seen. induction jobs as [|job rest IH]; intros seen.
  - split; [constructor | by intros u ?%elem_of_nil].
  - rewrite dedup_loop_cons.
    destruct (truthy (url job)) eqn:Ht; cbn [andb negb].
    + destruct (bool_decide (url job ∉ seen)) eqn:Hd.
      * apply bool_decide_eq_true in Hd.
        destruct (IH ({[ url job ]} ∪ seen)) as [Hnd Hout].
        rewrite keyed_urls_cons, Ht. split.
        -- apply NoDup_cons. split; [|done].
           intros Hin. apply Hout in Hin. apply Hin.
           apply elem_of_union_l. by apply elem_of_singleton.
        -- intros u [-> | Hin]%elem_of_cons; [done|].
           apply Hout in Hin. intros Hu. apply Hin.
           by apply elem_of_union_r.
      * apply IH.
    + destruct (IH seen) as [Hnd Hout].
      by rewrite keyed_urls_cons, Ht.
Qed.

(** A list whose non-empty urls are pairwise distinct and new to [seen]
    goes through the loop unchanged. *)
Lemma dedup_loop_fixed seen jobs :
  NoDup (keyed_urls jobs) ->
  (forall u, u ∈ keyed_urls jobs -> u ∉ seen) ->
  dedup_loop seen [] jobs = jobs.
Proof.
  revert seen. induction jobs as [|job rest IH]; intros seen Hnd Hnew.
  - done.
  - rewrite dedup_loop_cons. rewrite keyed_urls_cons in Hnd, Hnew.
    destruct (truthy (url job)) eqn:Ht; cbn [andb negb].
    + apply NoDup_cons in Hnd as [Hfresh Hnd].
      rewrite bool_decide_eq_true_2 by (apply Hnew; left).
      f_equal. apply IH; [done|]. intros u Hin.
      rewrite not_elem_of_union, not_elem_of_singleton. split.
      * intros ->. done.
      * apply Hnew. by right.
    + f_equal. by apply IH.
Qed.

Lemma dedup_loop_keyless seen jobs :
  keyless (dedup_loop seen [] jobs) = keyless jobs.
Proof.
  revert seen. induction jobs as [|job rest IH]; intros seen.
  - done.
  - rewrite dedup_loop_cons. unfold keyless in *.
    destruct (truthy (url job)) eqn:Ht; cbn [andb negb].
    + apply truthy_true in Ht.
      rewrite (filter_cons_False _ job rest) by done.
      destruct (bool_decide (url job ∉ seen)); [|apply IH].
      rewrite filter_cons_False by done. apply IH.
    + apply truthy_false in Ht.
      rewrite !filter_cons_True by done. f_equal. apply IH.
Qed.

Lemma dedup_loop_sublist seen jobs : sublist (dedup_loop seen [] jobs) jobs.
Proof.
  revert seen. induction jobs as [|job rest IH]; intros seen.
  - constructor.
  - rewrite dedup_loop_cons.
    destruct (truthy (url job) && bool_decide (url job ∉ seen)).
    + by apply sublist_skip.
    + destruct (negb (truthy (url job)));
        [by apply sublist_skip | by apply sublist_cons].
Qed.

(** C4: the output of the deduplicator is the input restricted, in order,
    to the postings without a url and to the first posting of each
    non-empty url; so its non-empty urls are pairwise distinct, and the
    postings without a url are all kept. *)
Theorem dedupe_keeps_first_occurrences jobs :
  dedupe jobs = first_occurrences jobs
  /\ sublist (dedupe jobs) jobs
  /\ NoDup (keyed_urls (dedupe jobs))
  /\ keyless (dedupe jobs) = keyless jobs.
Proof.
  split; [apply dedupe_is_first_occurrences|].
  split; [apply dedup_loop_sublist|].
  split; [apply dedup_loop_keyed | apply dedup_loop_keyless].
Qed.

(** C5: deduplicating twice is deduplicating once. *)
Theorem dedupe_idempotent jobs : dedupe (dedupe jobs) = dedupe jobs.
Proof.
  unfold dedupe. destruct (dedup_loop_keyed ∅ jobs) as [Hnd _].
  apply dedup_loop_fixed; [done|]. intros u _. apply not_elem_of_empty.
Qed.

End Dedup.

(** ** Novelty tracker and registry *)

Section Novelty.

Local Open Scope list_scope.

Implicit Types (seen : gmap string (gmap string string))
         (jobs : list JobOffer) (job : JobOffer) (today : string).

Lemma job_key_url job : url job <> "" -> job_key job = url job.
Proof. intros Hu%truthy_true. unfold job_key. by rewrite Hu. Qed.

Lemma job_key_fallback job :
  url job = "" -> job_key job = title job +:+ "|" +:+ company job.
Proof. intros Hu. unfold job_key. by rewrite Hu. Qed.

Lemma mark_job_absent seen job :
  seen !! job_key job = None -> mark_job seen job = job.
Proof. intros Hk. unfold mark_job. by rewrite Hk. Qed.

Lemma mark_job_present seen job e :
  seen !! job_key job = Some e ->
  mark_job seen job = set_seen job (default "Unknown" (e !! "first_seen")).
Proof. intros Hk. unfold mark_job. by rewrite Hk. Qed.

(** Marking never changes what the key is computed from. *)
Lemma job_key_mark seen job : job_key (mark_job seen job) = job_key job.
Proof. unfold mark_job. by destruct (seen !! job_key job). Qed.

Lemma save_job_keeps today seen job k e :
  seen !! k = Some e -> save_job today seen job !! k = Some e.
Proof.
  intros Hk. unfold save_job.
  destruct (seen !! job_key job) eqn:Hj; [done|].
  rewrite lookup_insert_ne; [done|]. congruence.
Qed.

Lemma save_loop_keeps today jobs seen k e :
  seen !! k = Some e -> foldl (save_job today) seen jobs !! k = Some e.
Proof.
  revert seen. induction jobs as [|job rest IH]; intros seen Hk; [done|].
  cbn [foldl]. by apply IH, save_job_keeps.
Qed.

Lemma save_job_origin today seen job k e :
  save_job today seen job !! k = Some e ->
  seen !! k = Some e
  \/ (seen !! k = None /\ job_key job = k /\ e = new_entry today job).
Proof.
  unfold save_job. destruct (seen !! job_key job) eqn:Hj; [by left|].
  destruct (decide (job_key job = k)) as [<- | Hne].
  - rewrite lookup_insert_eq. intros [= <-]. by right.
  - rewrite lookup_insert_ne by done. by left.
Qed.

Lemma save_loop_origin today jobs seen k e :
  foldl (save_job today) seen jobs !! k = Some e ->
  seen !! k = Some e
  \/ (seen !! k = None
      /\ exists job, job ∈ jobs /\ job_key job = k
                     /\ e = new_entry today job).
Proof.
  revert seen. induction jobs as [|job rest IH]; intros seen Hk.
  - by left.
  - cbn [foldl] in Hk. apply IH in Hk as [Hk | (Hnone & j & Hj & Hkey & He)].
    + apply save_job_origin in Hk as [Hk | (Hnone & Hkey & He)]; [by left|].
      right. split; [done|]. exists job. split; [left | done].
    + right. split.
      * destruct (seen !! k) eqn:Hs; [|done].
        by rewrite (save_job_keeps _ _ _ _ _ Hs) in Hnone.
      * exists j. split; [by right | done].
Qed.

Lemma save_loop_covers today jobs seen job :
  job ∈ jobs -> is_Some (foldl (save_job today) seen jobs !! job_key job).
Proof.
  revert seen. induction jobs as [|j rest IH]; intros seen Hin.
  - by apply elem_of_nil in Hin.
  - cbn [foldl]. apply elem_of_cons in Hin as [-> | Hin]; [|by apply IH].
    assert (is_Some (save_job today seen j !! job_key j)) as [e He].
    { unfold save_job. destruct (seen !! job_key j) eqn:Hj.
      - by rewrite Hj.
      - by rewrite lookup_insert_eq. }
    exists e. by apply save_loop_keeps.
Qed.

Lemma new_entry_fields today job :
  new_entry today job !! "first_seen" = Some today
  /\ new_entry today job !! "title" = Some (title job)
  /\ new_entry today job !! "company" = Some (company job).
Proof. unfold new_entry. by simplify_map_eq. Qed.

(** C8: saving keeps every entry the registry had, first-seen date
    included, so the registry only grows; what it adds are entries for keys
    that were absent, built from a posting of the run with today's date;
    the whole end of a run leaves the old entries in place as well. *)
Theorem save_only_inserts_absent_keys seen jobs today :
  let seen' := (_save_seen_jobs seen jobs today).1 in
  (forall k e, seen !! k = Some e -> seen' !! k = Some e)
  /\ seen ⊆ seen'
  /\ (forall k e, seen' !! k = Some e ->
        seen !! k = Some e
        \/ (seen !! k = None
            /\ exists job, job ∈ jobs /\ job_key job = k
                           /\ e = new_entry today job
                           /\ e !! "first_seen" = Some today
                           /\ e !! "title" = Some (title job)
                           /\ e !! "company" = Some (company job)))
  /\ (_save_seen_jobs seen jobs today).2 = Holds (JObject seen')
  /\ (forall collected,
        seen ⊆ run_seen (finish_run seen collected today)).
Proof.
  cbn. split; [|split; [|split; [|split]]].
  - intros k e. apply save_loop_keeps.
  - apply map_subseteq_spec. intros k e. apply save_loop_keeps.
  - intros k e Hk.
    apply save_loop_origin in Hk as [Hk | (Hnone & j & Hj & Hkey & ->)];
      [by left|].
    right. split; [done|]. exists j.
    destruct (new_entry_fields today j) as (? & ? & ?). done.
  - done.
  - intros collected. apply map_subseteq_spec. intros k e.
    apply save_loop_keeps.
Qed.

(** C10: marking keeps the length and the order of the list and, in every
    posting, all fields but [is_new] and [first_seen]; a posting whose key
    is not in the registry is returned as it was, and one whose key is
    there gets [is_new = False] and the first-seen date of its entry. *)
Theorem mark_seen_jobs_frame seen jobs :
  length (_mark_seen_jobs seen jobs) = length jobs
  /\ forall i job,
      jobs !! i = Some job ->
      exists job',
        _mark_seen_jobs seen jobs !! i = Some job'
        /\ title job' = title job /\ company job' = company job
        /\ url job' = url job /\ location job' = location job
        /\ posted_date job' = posted_date job
        /\ description job' = description job
        /\ source job' = source job /\ salary job' = salary job
        /\ tags job' = tags job
        /\ (seen !! job_key job = None -> job' = job)
        /\ (forall e, seen !! job_key job = Some e ->
              is_new job' = false
              /\ first_seen job'
                 = Some (default "Unknown" (e !! "first_seen"))).
Proof.
  unfold _mark_seen_jobs. split; [apply length_map|].
  intros i job Hi. exists (mark_job seen job). split.
  - change (map (mark_job seen) jobs) with (mark_job seen <$> jobs).
    by rewrite list_lookup_fmap, Hi.
  - unfold mark_job. destruct (seen !! job_key job) as [e|] eqn:Hk.
    + do 10 (split; [done|]). by intros e' [= <-].
    + do 10 (split; [done|]). by intros e'.
Qed.

Lemma dedupe_keyless_pair (j1 j2 : JobOffer) :
  url j1 = "" -> url j2 = "" -> dedupe [j1; j2] = [j1; j2].
Proof.
  intros H1 H2. unfold dedupe. apply dedup_loop_fixed.
  - rewrite !keyed_urls_cons, H1, H2. constructor.
  - rewrite !keyed_urls_cons, H1, H2. by intros u ?%elem_of_nil.
Qed.

Lemma dedupe_distinct_pair (j1 j2 : JobOffer) :
  url j1 <> "" -> url j1 <> url j2 -> dedupe [j1; j2] = [j1; j2].
Proof.
  intros H1 Hne. unfold dedupe. apply dedup_loop_fixed.
  - rewrite !keyed_urls_cons. apply truthy_true in H1. rewrite H1.
    destruct (truthy (url j2)).
    + apply NoDup_cons. split; [|apply NoDup_singleton].
      by intros ?%list_elem_of_singleton.
    + apply NoDup_singleton.
  - intros u _. apply not_elem_of_empty.
Qed.

Lemma finish_run_jobs seen collected today :
  run_jobs (finish_run seen collected today)
  = _mark_seen_jobs seen (dedupe collected).
Proof. reflexivity. Qed.

Lemma finish_run_seen seen collected today :
  run_seen (finish_run seen collected today)
  = foldl (save_job today) seen (_mark_seen_jobs seen (dedupe collected)).
Proof. reflexivity. Qed.

(** C2 as worded does not hold: with nothing in the registry, the second of
    two postings without url and with the same title and company is still
    new at the end of the run. *)
Lemma keyless_pair_counterexample :
  let j1 := new_offer "Growth Lead" "Acme" "" "Remote" None "" "web3.career"
              None [] in
  let j2 := new_offer "Growth Lead" "Acme" "" "Berlin" None "" "remote3"
              None [] in
  run_jobs (finish_run ∅ [j1; j2] "2024-06-01") = [j1; j2]
  /\ is_new j2 = true.
Proof.
  cbv zeta. split; [|done].
  rewrite finish_run_jobs, dedupe_keyless_pair by done.
  unfold _mark_seen_jobs. cbn [map].
  by rewrite !mark_job_absent by apply lookup_empty.
Qed.

(** C2, amended: two postings without url and with the same title and
    company have the same key "title|company"; the deduplicator keeps
    both; marking classifies both alike against the registry loaded at the
    start of the run, both untouched when the key is absent from it and
    both seen when it is present; saving records the key, so a later run
    marks both as seen. *)
Theorem keyless_pair_shares_identity seen (j1 j2 : JobOffer) today today' :
  url j1 = "" -> url j2 = "" ->
  title j1 = title j2 -> company j1 = company j2 ->
  let r := finish_run seen [j1; j2] today in
  job_key j1 = title j1 +:+ "|" +:+ company j1
  /\ job_key j2 = job_key j1
  /\ dedupe [j1; j2] = [j1; j2]
  /\ run_jobs r = [mark_job seen j1; mark_job seen j2]
  /\ (seen !! job_key j1 = None -> run_jobs r = [j1; j2])
  /\ (forall e, seen !! job_key j1 = Some e ->
        is_new <$> run_jobs r = [false; false]
        /\ first_seen <$> run_jobs r
           = [Some (default "Unknown" (e !! "first_seen"));
              Some (default "Unknown" (e !! "first_seen"))])
  /\ is_Some (run_seen r !! job_key j1)
  /\ is_new <$> run_jobs (finish_run (run_seen r) [j1; j2] today')
     = [false; false].
Proof.
  intros H1 H2 Ht Hc r.
  assert (Hk1 : job_key j1 = title j1 +:+ "|" +:+ company j1)
    by by apply job_key_fallback.
  assert (Hk2 : job_key j2 = job_key j1)
    by by rewrite Hk1, (job_key_fallback j2), Ht, Hc.
  assert (Hjobs : run_jobs r = [mark_job seen j1; mark_job seen j2]).
  { unfold r. by rewrite finish_run_jobs, dedupe_keyless_pair. }
  assert (Hsaved : is_Some (run_seen r !! job_key j1)).
  { unfold r. rewrite finish_run_seen, <- (job_key_mark seen j1).
    apply save_loop_covers. rewrite dedupe_keyless_pair by done. left. }
  repeat split; try done.
  - by apply dedupe_keyless_pair.
  - intros Hnone. rewrite Hjobs, !mark_job_absent; [done | | done].
    by rewrite Hk2.
  - rewrite Hjobs, (mark_job_present seen j1 e) by done.
    by rewrite (mark_job_present seen j2 e) by by rewrite Hk2.
  - rewrite Hjobs, (mark_job_present seen j1 e) by done.
    by rewrite (mark_job_present seen j2 e) by by rewrite Hk2.
  - destruct Hsaved as [e He].
    rewrite finish_run_jobs, dedupe_keyless_pair by done.
    unfold _mark_seen_jobs. cbn [map].
    rewrite (mark_job_present _ j1 e) by done.
    by rewrite (mark_job_present _ j2 e) by by rewrite Hk2.
Qed.

End Novelty.

(** ** Runs over the registry file *)

Section Runs.

Local Open Scope list_scope.

Lemma load_saved_registry (seen : gmap string (gmap string string))
      (jobs : list JobOffer) (today : string) :
  _load_seen_jobs (_save_seen_jobs seen jobs today).2
  = Ret (JObject (_save_seen_jobs seen jobs today).1).
Proof. reflexivity. Qed.

Lemma first_run_registry (ja jb : JobOffer) (d1 : string) :
  url ja = "a" -> url jb = "b" ->
  run_jobs (finish_run ∅ [ja; jb] d1) = [ja; jb]
  /\ run_seen (finish_run ∅ [ja; jb] d1)
     = <[ "b" := new_entry d1 jb ]> (<[ "a" := new_entry d1 ja ]> ∅).
Proof.
  intros Ha Hb.
  assert (Hmarked : _mark_seen_jobs ∅ (dedupe [ja; jb]) = [ja; jb]).
  { rewrite dedupe_distinct_pair by (rewrite Ha, ?Hb; done).
    unfold _mark_seen_jobs. cbn [map].
    by rewrite !mark_job_absent by apply lookup_empty. }
  rewrite finish_run_jobs, finish_run_seen, Hmarked. split; [done|].
  cbn [foldl]. unfold save_job.
  rewrite (job_key_url ja), (job_key_url jb) by (rewrite ?Ha, ?Hb; done).
  rewrite Ha, Hb, lookup_empty.
  by rewrite lookup_insert_ne, lookup_empty by done.
Qed.

(** C3: from an empty registry, a first run over postings with urls "a"
    and "b" leaves both new and records both under their url with the date
    of that run; the file it writes loads back to that registry; a second
    run over postings with urls "a" and "c" marks "a" as seen, first seen
    on the date of the first run, and leaves "c" new. *)
Theorem novelty_round_trip (ja jb ja' jc : JobOffer) (d1 d2 : string) :
  url ja = "a" -> url jb = "b" -> url ja' = "a" -> url jc = "c" ->
  is_new ja = true -> is_new jb = true -> is_new jc = true ->
  let r1 := finish_run ∅ [ja; jb] d1 in
  let r2 := finish_run (run_seen r1) [ja'; jc] d2 in
  _load_seen_jobs Missing = Ret (JObject ∅)
  /\ run_jobs r1 = [ja; jb]
  /\ is_new <$> run_jobs r1 = [true; true]
  /\ run_seen r1
     = <[ "b" := new_entry d1 jb ]> (<[ "a" := new_entry d1 ja ]> ∅)
  /\ (run_seen r1 !! "a" ≫= (.!! "first_seen")) = Some d1
  /\ (run_seen r1 !! "b" ≫= (.!! "first_seen")) = Some d1
  /\ _load_seen_jobs (run_file r1) = Ret (JObject (run_seen r1))
  /\ run_jobs r2 = [set_seen ja' d1; jc]
  /\ is_new <$> run_jobs r2 = [false; true]
  /\ (first_seen <$> run_jobs r2) !! 0%nat = Some (Some d1).
Proof.
  intros Ha Hb Ha' Hc Hna Hnb Hnc. cbv zeta.
  destruct (first_run_registry ja jb d1 Ha Hb) as [Hjobs1 Hseen1].
  assert (Hjobs2 : run_jobs (finish_run (run_seen (finish_run ∅ [ja; jb] d1))
                               [ja'; jc] d2) = [set_seen ja' d1; jc]).
  { rewrite finish_run_jobs, Hseen1.
    rewrite dedupe_distinct_pair by (rewrite Ha', ?Hc; done).
    unfold _mark_seen_jobs. cbn [map].
    rewrite (mark_job_present _ ja' (new_entry d1 ja)).
    - rewrite (mark_job_absent _ jc).
      + by destruct (new_entry_fields d1 ja) as [-> _].
      + rewrite job_key_url by (rewrite Hc; done). rewrite Hc.
        by rewrite !lookup_insert_ne, lookup_empty by done.
    - rewrite job_key_url by (rewrite Ha'; done). rewrite Ha'.
      by rewrite lookup_insert_ne, lookup_insert_eq by done. }
  split; [done|]. split; [done|].
  split; [by rewrite Hjobs1; cbn; rewrite Hna, Hnb|].
  split; [done|].
  split.
  { rewrite Hseen1, lookup_insert_ne, lookup_insert_eq by done.
    cbn. by destruct (new_entry_fields d1 ja) as [-> _]. }
  split.
  { rewrite Hseen1, lookup_insert_eq.
    cbn. by destruct (new_entry_fields d1 jb) as [-> _]. }
  split; [done|]. split; [done|].
  rewrite Hjobs2. cbn. by rewrite Hnc.
Qed.

(** C9: the loader falls back to the empty registry for a file that is
    missing, cannot be read or is no JSON; a file that parses to something
    other than an object is returned as it is, and a file whose bytes do
    not decode makes the loader raise. *)
Theorem load_seen_jobs_fallback_cases :
  _load_seen_jobs Missing = Ret (JObject ∅)
  /\ _load_seen_jobs Unreadable = Ret (JObject ∅)
  /\ _load_seen_jobs NotJson = Ret (JObject ∅)
  /\ _load_seen_jobs (Holds (JArray [])) = Ret (JArray [])
  /\ JArray [] <> JObject ∅
  /\ _load_seen_jobs NotText = Raise UnicodeDecodeError.
Proof. repeat split; done. Qed.

End Runs.

(** ** Closed instances *)

Section Instances.

Local Open Scope list_scope.

Lemma keyless_pair_shares_identity_witness :
  dedupe [offer "Growth Lead" "Acme" ""; offer "Growth Lead" "Acme" ""]
  = [offer "Growth Lead" "Acme" ""; offer "Growth Lead" "Acme" ""]
  /\ job_key (offer "Growth Lead" "Acme" "") = "Growth Lead|Acme".
Proof.
  pose proof (keyless_pair_shares_identity
                ∅ (offer "Growth Lead" "Acme" "")
                (offer "Growth Lead" "Acme" "") "2024-06-01" "2024-06-02"
                eq_refl eq_refl eq_refl eq_refl) as H.
  cbv zeta in H. destruct H as (Hk & _ & Hd & _). split; [exact Hd|exact Hk].
Defined.

Lemma novelty_round_trip_witness :
  is_new <$> run_jobs
    (finish_run
       (run_seen (finish_run ∅ [offer "A" "X" "a"; offer "B" "Y" "b"]
                    "2024-06-01"))
       [offer "A" "X" "a"; offer "C" "Z" "c"] "2024-06-02")
  = [false; true].
Proof.
  pose proof (novelty_round_trip
                (offer "A" "X" "a") (offer "B" "Y" "b")
                (offer "A" "X" "a") (offer "C" "Z" "c")
                "2024-06-01" "2024-06-02"
                eq_refl eq_refl eq_refl eq_refl eq_refl eq_refl eq_refl)
    as H.
  cbv zeta in H. exact (proj1 (proj2 (proj2 (proj2 (proj2 (proj2 (proj2
    (proj2 (proj2 H))))))))).
Defined.

Lemma save_only_inserts_absent_keys_witness :
  (_save_seen_jobs {[ "a" := {[ "first_seen" := "2024-01-01" ]} ]}
     [offer "A" "X" "a"; offer "B" "Y" "b"] "2024-06-01").1 !! "a"
  = Some {[ "first_seen" := "2024-01-01" ]}.
Proof.
  apply (proj1 (save_only_inserts_absent_keys
                  {[ "a" := {[ "first_seen" := "2024-01-01" ]} ]}
                  [offer "A" "X" "a"; offer "B" "Y" "b"] "2024-06-01")).
  vm_compute. reflexivity.
Defined.

Lemma mark_seen_jobs_frame_witness :
  exists job',
    _mark_seen_jobs {[ "a" := {[ "first_seen" := "2024-01-01" ]} ]}
      [offer "A" "X" "a"] !! 0%nat = Some job'
    /\ title job' = "A".
Proof.
  destruct (proj2 (mark_seen_jobs_frame
                     {[ "a" := {[ "first_seen" := "2024-01-01" ]} ]}
                     [offer "A" "X" "a"]) 0%nat (offer "A" "X" "a") eq_refl)
    as (job' & Hl & Ht & _).
  exists job'. split; [exact Hl | exact Ht].
Defined.

End Instances.

(** * Further properties *)

(** ** Substring tests and the relevance filter *)

Section RelevanceMore.

Lemma startswith_spec (p s : string) :
  startswith p s = true <-> exists b, s = p +:+ b.
Proof.
  revert s. induction p as [|a p IH]; intros s; cbn.
  - split; [by exists s | done].
  - destruct s as [|c s]; cbn.
    + split; [done | by intros [b Hb]].
    + rewrite andb_true_iff, IH. split.
      * intros [Hac [b ->]]. apply Ascii.eqb_eq in Hac as ->. by exists b.
      * intros [b [= -> ->]]. split; [apply Ascii.eqb_refl | by exists b].
Qed.

(** X1: [p in s] holds exactly when [s] is some text, then [p], then some
    text: a keyword matches anywhere, also inside a longer word. *)
Theorem str_in_spec (p s : string) :
  str_in p s = true <-> exists a b, s = a +:+ p +:+ b.
Proof.
  induction s as [|c t IH]; cbn [str_in].
  - rewrite orb_false_r, startswith_spec. split.
    + intros [b Hb]. by exists EmptyString, b.
    + intros (a & b & Hs). destruct a; [by exists b | done].
  - rewrite orb_true_iff, startswith_spec, IH. split.
    + intros [[b Hb] | (a & b & ->)].
      * by exists EmptyString, b.
      * by exists (String c a), b.
    + intros (a & b & Hs). destruct a as [|c' a]; cbn in Hs.
      * left. by exists b.
      * right. injection Hs as -> ->. by exists a, b.
Qed.

Lemma exclusion_loop_result (text : string) (kws : list string) :
  exclusion_loop text kws = None \/ exclusion_loop text kws = Some false.
Proof.
  induction kws as [|k rest IH]; cbn [exclusion_loop]; [by left|].
  destruct (str_in k text); [|done].
  by destruct (list_in k CARVE_OUT && _); [|right].
Qed.

Lemma exclusion_loop_passes (text : string) (kws : list string) :
  exclusion_loop text kws = None <->
  forall kw, kw ∈ kws -> str_in kw text = true ->
             kw ∈ CARVE_OUT
             /\ exists r, r ∈ RESCUE_TERMS /\ str_in r text = true.
Proof.
  assert (Hrescue : existsb (fun k => str_in k text) RESCUE_TERMS = true <->
                    exists r, r ∈ RESCUE_TERMS /\ str_in r text = true).
  { rewrite existsb_exists. by setoid_rewrite list_elem_of_In. }
  induction kws as [|k rest IH]; cbn [exclusion_loop].
  - split; [by intros _ kw ?%elem_of_nil | done].
  - destruct (str_in k text) eqn:Hk.
    + destruct (list_in k CARVE_OUT && _) eqn:Hw.
      * apply andb_true_iff in Hw as [Hc Hr]. rewrite IH. split.
        -- intros Hrest kw [-> | Hin]%elem_of_cons Hm; [|by apply Hrest].
           split; [by apply list_in_spec | by apply Hrescue].
        -- intros Hall kw Hin. apply Hall. by right.
      * split; [done|]. intros Hall.
        destruct (Hall k) as [Hc Hr]; [by left | done |].
        apply list_in_spec in Hc. apply Hrescue in Hr.
        by rewrite Hc, Hr in Hw.
    + rewrite IH. split.
      * intros Hrest kw [-> | Hin]%elem_of_cons Hm; [congruence|].
        by apply Hrest.
      * intros Hall kw Hin. apply Hall. by right.
Qed.

Lemma inclusion_loop_spec (text : string) (kws : list string) :
  (inclusion_loop text kws = Some true <->
   exists kw, kw ∈ kws /\ str_in kw text = true)
  /\ (inclusion_loop text kws = Some true \/ inclusion_loop text kws = None).
Proof.
  induction kws as [|k rest [IH1 IH2]]; cbn [inclusion_loop].
  - split; [|by right]. split; [done | by intros (kw & ?%elem_of_nil & _)].
  - destruct (str_in k text) eqn:Hk.
    + split; [|by left]. split; [|done]. intros _. exists k. split; [left|done].
    + split; [|done]. rewrite IH1. split.
      * intros (kw & Hin & Hm). exists kw. split; [by right | done].
      * intros (kw & [-> | Hin]%elem_of_cons & Hm); [congruence|]. by exists kw.
Qed.

(** X2: a posting is accepted exactly when some inclusion keyword occurs in
    the lowered "title description" text and every exclusion keyword that
    occurs is one of 'engineer'/'engineering' with a rescue term present. *)
Theorem is_relevant_job_iff (t d : string) :
  let text := lower (t +:+ " " +:+ d) in
  is_relevant_job t d = true <->
  (forall kw, kw ∈ EXCLUDE_KEYWORDS -> str_in kw text = true ->
              kw ∈ CARVE_OUT
              /\ exists r, r ∈ RESCUE_TERMS /\ str_in r text = true)
  /\ (exists kw, kw ∈ DESIRED_KEYWORDS /\ str_in kw text = true).
Proof.
  cbv zeta. unfold is_relevant_job.
  rewrite <- exclusion_loop_passes.
  destruct (inclusion_loop_spec (lower (t +:+ " " +:+ d)) DESIRED_KEYWORDS)
    as [Hinc Hres]. rewrite <- Hinc.
  destruct (exclusion_loop_result (lower (t +:+ " " +:+ d)) EXCLUDE_KEYWORDS)
    as [-> | ->].
  - destruct Hres as [-> | ->]; split; try done. by intros [_ ?].
  - split; [done | by intros [? _]].
Qed.

Lemma lower_app (a b : string) : lower (a +:+ b) = lower a +:+ lower b.
Proof.
  induction a as [|c a IH]; [done|].
  change (String (lower_char c) (lower (a +:+ b))
          = String (lower_char c) (lower a +:+ lower b)).
  by rewrite IH.
Qed.

(** X3: the filter is case-insensitive: titles and descriptions that are
    equal after lowering get the same verdict. *)
Theorem is_relevant_job_case_insensitive (t t' d d' : string) :
  lower t = lower t' -> lower d = lower d' ->
  is_relevant_job t d = is_relevant_job t' d'.
Proof.
  intros Ht Hd. unfold is_relevant_job.
  by rewrite !lower_app, Ht, Hd.
Qed.

Lemma rescue_terms_desired (r : string) :
  r ∈ RESCUE_TERMS -> r ∈ DESIRED_KEYWORDS.
Proof.
  unfold RESCUE_TERMS. intros Hr.
  rewrite !elem_of_cons, elem_of_nil in Hr.
  destruct Hr as [-> | [-> | [-> | [-> | [-> | []]]]]]; apply list_in_spec;
    reflexivity.
Qed.

(** X4: every rescue term is an inclusion keyword, so a posting whose text
    hits an exclusion keyword is accepted exactly when the exclusion loop
    lets it through: a waived posting never fails the inclusion test. *)
Theorem waived_posting_is_accepted (t d kw : string) :
  kw ∈ EXCLUDE_KEYWORDS ->
  str_in kw (lower (t +:+ " " +:+ d)) = true ->
  is_relevant_job t d = true
  <-> exclusion_loop (lower (t +:+ " " +:+ d)) EXCLUDE_KEYWORDS = None.
Proof.
  intros Hin Hm. unfold is_relevant_job.
  destruct (exclusion_loop_result (lower (t +:+ " " +:+ d)) EXCLUDE_KEYWORDS)
    as [Hpass | Hrej]; rewrite ?Hpass, ?Hrej; [|done].
  destruct (proj1 (exclusion_loop_passes _ _) Hpass kw Hin Hm)
    as (_ & r & Hr & Hrm).
  assert (Hinc : inclusion_loop (lower (t +:+ " " +:+ d)) DESIRED_KEYWORDS
                 = Some true).
  { apply inclusion_loop_spec. exists r.
    split; [by apply rescue_terms_desired | done]. }
  by rewrite Hinc.
Qed.

End RelevanceMore.

(** ** The unit patterns and what [parse_relative_date] can return *)

Section DatesMore.

Local Open Scope Z_scope.

Lemma star_cls_calls {A : Type} (cls : ascii -> bool) (s : string)
      (k : string -> option A) (a : A) :
  star_cls cls s k = Some a -> exists s', k s' = Some a.
Proof.
  induction s as [|c t IH]; cbn [star_cls]; [by exists EmptyString|].
  destruct (cls c); [|by exists (String c t)].
  destruct (star_cls cls t k) as [a'|] eqn:Ht.
  - intros [= <-]. by apply IH.
  - by exists (String c t).
Qed.

Lemma star_digits_inv {A : Type} (s : string) (k : string -> option A)
      (a : A) :
  star_cls is_digit s k = Some a ->
  exists pre s', s = pre +:+ s' /\ all_digits pre = true /\ k s' = Some a.
Proof.
  induction s as [|c t IH]; cbn [star_cls].
  - intros Hk. by exists EmptyString, EmptyString.
  - destruct (is_digit c) eqn:Hc;
      [|intros Hk; by exists EmptyString, (String c t)].
    destruct (star_cls is_digit t k) as [a'|] eqn:Ht.
    + intros [= <-]. destruct (IH eq_refl) as (pre & s' & -> & Hpre & Hk).
      exists (String c pre), s'. cbn. by rewrite Hc, Hpre.
    + intros Hk. by exists EmptyString, (String c t).
Qed.

(** A pattern without group hands the capture it received on to its
    continuation. *)
Lemma rmatch_no_group {A : Type} (r : regex) :
  no_group r = true ->
  forall (s : string) (cap : option string)
         (k : string -> option string -> option A) (a : A),
    rmatch r s cap k = Some a -> exists s', k s' cap = Some a.
Proof.
  induction r as [l | cls | cls | r1 IH1 r2 IH2 | r1 IH1 r2 IH2 | r1 IH1 | r1 _];
    cbn [no_group]; intros Hng s cap k a; cbn [rmatch].
  - destruct (startswith l s); [|done]. intros Hk. by eexists.
  - destruct s as [|c t]; [done|]. destruct (cls c); [|done].
    intros Hk. by apply star_cls_calls in Hk.
  - intros Hk. by apply star_cls_calls in Hk.
  - apply andb_true_iff in Hng as [H1 H2]. intros Hk.
    apply (IH1 H1) in Hk as [s' Hk]. by apply (IH2 H2) in Hk.
  - apply andb_true_iff in Hng as [H1 H2].
    destruct (rmatch r1 s cap k) as [a'|] eqn:Hr1.
    + intros [= <-]. by apply (IH1 H1) in Hr1.
    + by apply IH2.
  - destruct (rmatch r1 s cap k) as [a'|] eqn:Hr1.
    + intros [= <-]. by apply (IH1 Hng) in Hr1.
    + intros Hk. by exists s.
  - done.
Qed.

Lemma take_chars_app (pre s : string) :
  take_chars (String.length pre) (pre +:+ s) = pre.
Proof.
  induction pre as [|c pre IH]; [by destruct s|].
  change (String c (take_chars (String.length pre) (pre +:+ s))
          = String c pre).
  by rewrite IH.
Qed.

Lemma length_string_app (a b : string) :
  String.length (a +:+ b) = (String.length a + String.length b)%nat.
Proof.
  induction a as [|c a IH]; [done|].
  change (S (String.length (a +:+ b))
          = S (String.length a + String.length b)).
  by rewrite IH.
Qed.

Lemma consumed_prefix (pre s : string) : consumed (pre +:+ s) s = pre.
Proof.
  unfold consumed. rewrite length_string_app.
  replace (String.length pre + String.length s - String.length s)%nat
    with (String.length pre) by lia.
  apply take_chars_app.
Qed.












Variable strptime : string -> string -> option datetime.



End DatesMore.

(** ** More on the deduplicator *)

Section DedupMore.

Local Open Scope list_scope.

Implicit Types (seen : gset string) (jobs : list JobOffer).

Lemma dedup_loop_urls seen jobs (u : string) :
  u ∈ url <$> jobs -> u ∈ url <$> dedup_loop seen [] jobs \/ u ∈ seen.
Proof.
  revert seen. induction jobs as [|job rest IH]; intros seen.
  - by intros ?%elem_of_nil.
  - rewrite dedup_loop_cons, fmap_cons, elem_of_cons.
    destruct (truthy (url job)) eqn:Ht; cbn [andb negb].
    + destruct (bool_decide (url job ∉ seen)) eqn:Hd.
      * intros [-> | Hin]; [left; left|].
        destruct (IH ({[ url job ]} ∪ seen) Hin) as [Hout | Hs].
        -- left. rewrite fmap_cons. by right.
        -- apply elem_of_union in Hs as [->%elem_of_singleton | Hs];
             [left; left | by right].
      * apply bool_decide_eq_false in Hd.
        intros [-> | Hin]; [|by apply IH].
        right. by destruct (decide (url job ∈ seen)).
    + intros [-> | Hin]; [left; left|].
      destruct (IH seen Hin) as [Hout | Hs]; [|by right].
      left. rewrite fmap_cons. by right.
Qed.

(** X8: deduplication loses no url: a url occurs in the output exactly when
    it occurs in the input. *)
Theorem dedupe_preserves_urls jobs (u : string) :
  u ∈ url <$> dedupe jobs <-> u ∈ url <$> jobs.
Proof.
  split.
  - intros (job & -> & Hin)%list_elem_of_fmap.
    apply list_elem_of_fmap. exists job. split; [done|].
    by apply (sublist_subseteq _ _ (dedup_loop_sublist ∅ jobs)).
  - intros Hin. destruct (dedup_loop_urls ∅ jobs u Hin) as [Hout | Hs];
      [done | by apply elem_of_empty in Hs].
Qed.

Lemma sublist_same_length (l1 l2 : list JobOffer) :
  sublist l1 l2 -> length l1 = length l2 -> l1 = l2.
Proof.
  induction 1 as [|x l1 l2 Hs IH | x l1 l2 Hs IH]; cbn; intros Hlen.
  - done.
  - f_equal. apply IH. lia.
  - apply sublist_length in Hs. lia.
Qed.

(** X9: the deduplicator returns its input unchanged exactly when the
    non-empty urls of the input are pairwise distinct; otherwise the output
    is strictly shorter. *)
Theorem dedupe_fixed_iff jobs :
  (dedupe jobs = jobs <-> NoDup (keyed_urls jobs))
  /\ (length (dedupe jobs) <= length jobs)%nat
  /\ (length (dedupe jobs) = length jobs -> dedupe jobs = jobs).
Proof.
  split; [|split].
  - split.
    + intros Heq. rewrite <- Heq. apply dedup_loop_keyed.
    + intros Hnd. apply dedup_loop_fixed; [done|].
      intros u _. apply not_elem_of_empty.
  - apply sublist_length, dedup_loop_sublist.
  - apply sublist_same_length, dedup_loop_sublist.
Qed.

End DedupMore.

(** ** More on the novelty tracker and the registry *)

Section NoveltyMore.

Local Open Scope list_scope.

Implicit Types (seen : gmap string (gmap string string))
         (jobs : list JobOffer) (job : JobOffer) (today : string).

Lemma mark_job_idempotent seen job :
  mark_job seen (mark_job seen job) = mark_job seen job.
Proof.
  unfold mark_job at 1. rewrite job_key_mark.
  unfold mark_job. by destruct (seen !! job_key job).
Qed.

(** X10: marking twice against the same registry is marking once, and
    marking never changes the identity key of a posting. *)
Theorem mark_seen_jobs_idempotent seen jobs :
  _mark_seen_jobs seen (_mark_seen_jobs seen jobs) = _mark_seen_jobs seen jobs
  /\ job_key <$> _mark_seen_jobs seen jobs = job_key <$> jobs.
Proof.
  unfold _mark_seen_jobs. split.
  - induction jobs as [|job rest IH]; [done|]. cbn [map].
    by rewrite mark_job_idempotent, IH.
  - induction jobs as [|job rest IH]; [done|]. cbn [map fmap list_fmap].
    rewrite job_key_mark. f_equal. exact IH.
Qed.

Lemma save_loop_present today seen jobs :
  (forall job, job ∈ jobs -> is_Some (seen !! job_key job)) ->
  foldl (save_job today) seen jobs = seen.
Proof.
  revert seen. induction jobs as [|job rest IH]; intros seen Hall; [done|].
  cbn [foldl]. assert (Hs : save_job today seen job = seen).
  { unfold save_job. destruct (Hall job) as [e ->]; [left | done]. }
  rewrite Hs. apply IH. intros j Hj. apply Hall. by right.
Qed.

Lemma elem_of_mark seen jobs job :
  job ∈ _mark_seen_jobs seen jobs ->
  exists j, j ∈ jobs /\ job = mark_job seen j.
Proof.
  unfold _mark_seen_jobs. intros Hin.
  apply list_elem_of_In, in_map_iff in Hin as (j & <- & Hj).
  exists j. split; [by apply list_elem_of_In | done].
Qed.

(** X11: a second run over the same collected postings marks every posting
    as seen and leaves the registry as the first run saved it, whatever the
    registry was before and whatever the dates of the two runs are. *)
Theorem rerun_sees_everything seen (collected : list JobOffer)
        today today' :
  let r1 := finish_run seen collected today in
  let r2 := finish_run (run_seen r1) collected today' in
  Forall (fun job => is_new job = false) (run_jobs r2)
  /\ length (run_jobs r2) = length (run_jobs r1)
  /\ run_seen r2 = run_seen r1.
Proof.
  cbv zeta.
  assert (Hcov : forall j, j ∈ dedupe collected ->
                 is_Some (run_seen (finish_run seen collected today)
                            !! job_key j)).
  { intros j Hj. rewrite finish_run_seen, <- (job_key_mark seen j).
    apply save_loop_covers. unfold _mark_seen_jobs.
    apply list_elem_of_In, in_map, list_elem_of_In, Hj. }
  split; [|split].
  - apply Forall_forall. intros job Hin. rewrite finish_run_jobs in Hin.
    apply elem_of_mark in Hin as (j & Hj & ->).
    destruct (Hcov j Hj) as [e He]. by rewrite (mark_job_present _ _ e).
  - rewrite !finish_run_jobs. unfold _mark_seen_jobs. by rewrite !length_map.
  - rewrite (finish_run_seen (run_seen _)). apply save_loop_present.
    intros job (j & Hj & ->)%elem_of_mark. rewrite job_key_mark.
    by apply Hcov.
Qed.

(** X12: after saving, the keys of the registry are the keys it had together
    with the keys of the postings of the run. *)
Theorem save_domain seen jobs today :
  dom (_save_seen_jobs seen jobs today).1
  = dom seen ∪ list_to_set (job_key <$> jobs).
Proof.
  cbn. revert seen. induction jobs as [|job rest IH]; intros seen.
  - cbn. by rewrite union_empty_r_L.
  - cbn [foldl]. rewrite IH, fmap_cons, list_to_set_cons.
    assert (Hd : dom (save_job today seen job) = dom seen ∪ {[ job_key job ]}).
    { unfold save_job. destruct (seen !! job_key job) eqn:Hk.
      - apply set_eq. intros k.
        rewrite elem_of_union, elem_of_singleton, !elem_of_dom.
        split; [by left | intros [? | ->]; [done | by rewrite Hk]].
      - rewrite dom_insert_L. apply set_eq. intros k.
        rewrite !elem_of_union, elem_of_singleton. tauto. }
    rewrite Hd. apply set_eq. intros k.
    rewrite !elem_of_union, elem_of_singleton. tauto.
Qed.

Lemma new_jobs_count_filter jobs :
  new_jobs_count jobs = length (filter (fun job => is_new job = true) jobs).
Proof.
  induction jobs as [|job rest IH]; [done|]. cbn [new_jobs_count foldr].
  fold (new_jobs_count rest). destruct (is_new job) eqn:Hn.
  - rewrite filter_cons_True by done. cbn. by rewrite IH.
  - rewrite filter_cons_False by (by rewrite Hn). exact IH.
Qed.

Lemma new_jobs_count_mark seen jobs :
  Forall (fun job => is_new job = true) jobs ->
  new_jobs_count (_mark_seen_jobs seen jobs)
  = length (filter (fun job => seen !! job_key job = None) jobs).
Proof.
  unfold _mark_seen_jobs.
  induction 1 as [|job rest Hn _ IH]; [done|].
  cbn [map new_jobs_count foldr]. fold (new_jobs_count (map (mark_job seen) rest)).
  unfold mark_job at 1. destruct (seen !! job_key job) eqn:Hk.
  - cbn [is_new set_seen]. rewrite filter_cons_False by (by rewrite Hk).
    exact IH.
  - rewrite Hn, filter_cons_True by done. cbn. by rewrite IH.
Qed.

Lemma save_loop_size today seen jobs :
  (size (foldl (save_job today) seen jobs)
   <= size seen
      + length (filter (fun job => seen !! job_key job = None) jobs))%nat.
Proof.
  revert seen. induction jobs as [|job rest IH]; intros seen.
  - cbn. lia.
  - cbn [foldl]. specialize (IH (save_job today seen job)).
    unfold save_job in *. destruct (seen !! job_key job) eqn:Hk.
    + rewrite filter_cons_False by (by rewrite Hk). exact IH.
    + rewrite filter_cons_True by done. cbn [length].
      rewrite map_size_insert_None in IH by done.
      assert (Hmono :
        (length (filter (fun j => <[job_key job:=new_entry today job]> seen
                                    !! job_key j = None) rest)
         <= length (filter (fun j => seen !! job_key j = None) rest))%nat).
      { clear IH. induction rest as [|j rest IHr]; [done|].
        destruct (decide (<[job_key job:=new_entry today job]> seen
                            !! job_key j = None)) as [Hn | Hn].
        - rewrite filter_cons_True by done.
          apply lookup_insert_None in Hn as [Hn _].
          rewrite (filter_cons_True _ j rest) by done. cbn. lia.
        - rewrite filter_cons_False by done.
          destruct (decide (seen !! job_key j = None)).
          + rewrite (filter_cons_True _ j rest) by done. cbn. lia.
          + by rewrite (filter_cons_False _ j rest) by done. }
      lia.
Qed.

Lemma filter_absent_mark seen jobs :
  filter (fun job => seen !! job_key job = None) (_mark_seen_jobs seen jobs)
  = filter (fun job => seen !! job_key job = None) jobs.
Proof.
  unfold _mark_seen_jobs. induction jobs as [|j rest IH]; [done|].
  cbn [map]. destruct (decide (seen !! job_key j = None)) as [Hn | Hn].
  - rewrite (filter_cons_True _ j rest) by done.
    rewrite (mark_job_absent seen j Hn), filter_cons_True by done.
    by rewrite IH.
  - rewrite (filter_cons_False _ j rest) by done.
    rewrite filter_cons_False by (by rewrite job_key_mark). exact IH.
Qed.

Lemma Forall_sublist_new (l1 l2 : list JobOffer) :
  sublist l1 l2 ->
  Forall (fun job => is_new job = true) l2 ->
  Forall (fun job => is_new job = true) l1.
Proof.
  intros Hs Hall. apply Forall_forall. intros j Hj.
  rewrite Forall_forall in Hall. apply Hall.
  by apply (sublist_subseteq _ _ Hs).
Qed.

(** X13: the summary of a run.  When the collected postings are fresh from
    the scrapers (all [is_new]), the number of new postings printed is the
    number of deduplicated postings whose key is not in the loaded registry;
    it is at most the total, and the registry grows by at most that
    number. *)
Theorem run_summary seen (collected : list JobOffer) today :
  Forall (fun job => is_new job = true) collected ->
  let r := finish_run seen collected today in
  new_jobs_count (run_jobs r)
  = length (filter (fun job => seen !! job_key job = None)
              (dedupe collected))
  /\ (new_jobs_count (run_jobs r) <= length (run_jobs r))%nat
  /\ (size (run_seen r) <= size seen + new_jobs_count (run_jobs r))%nat.
Proof.
  intros Hfresh. cbv zeta.
  assert (Hd : Forall (fun job => is_new job = true) (dedupe collected))
    by (eapply Forall_sublist_new; [apply dedup_loop_sublist | done]).
  rewrite finish_run_jobs, finish_run_seen, new_jobs_count_mark by done.
  split; [done|]. split.
  - unfold _mark_seen_jobs. rewrite length_map. apply length_filter.
  - etrans; [apply save_loop_size|]. by rewrite filter_absent_mark.
Qed.

End NoveltyMore.

(** ** The report: grouping and date badges *)

Section Report.

Local Open Scope list_scope.

Lemma group_loop_spec (jobs : list JobOffer)
      (cats : category -> list JobOffer) (c : category) :
  foldl (fun cats job => cat_append (categorize (title job)) job cats)
        cats jobs c
  = cats c ++ filter (fun job => categorize (title job) = c) jobs.
Proof.
  revert cats. induction jobs as [|job rest IH]; intros cats.
  - cbn. by rewrite app_nil_r.
  - cbn [foldl]. rewrite IH. unfold cat_append.
    destruct (decide (c = categorize (title job))) as [-> | Hne].
    + rewrite filter_cons_True by done. by rewrite <- app_assoc.
    + by rewrite filter_cons_False by congruence.
Qed.

Lemma category_filters_permutation (jobs : list JobOffer) :
  filter (fun job => categorize (title job) = Growth) jobs
  ++ filter (fun job => categorize (title job) = Marketing) jobs
  ++ filter (fun job => categorize (title job) = Community) jobs
  ++ filter (fun job => categorize (title job) = BdPartnerships) jobs
  ++ filter (fun job => categorize (title job) = Other) jobs
  ≡ₚ jobs.
Proof.
  induction jobs as [|job rest IH]; [done|].
  destruct (categorize (title job)) eqn:Hc;
    repeat first
      [ rewrite (filter_cons_True _ job rest) by done
      | rewrite (filter_cons_False _ job rest) by congruence ];
    cbn [app]; repeat rewrite <- Permutation_middle;
    by rewrite IH.
Qed.

(** X14: the grouping loop puts every posting into exactly one of the five
    categories: each category holds the postings of its class in the order
    of the sorted list, and the five lists together are a permutation of
    it. *)
Theorem grouping_partitions (sorted_jobs : list JobOffer) :
  (forall c, group_jobs sorted_jobs c
             = filter (fun job => categorize (title job) = c) sorted_jobs)
  /\ group_jobs sorted_jobs Growth ++ group_jobs sorted_jobs Marketing
     ++ group_jobs sorted_jobs Community
     ++ group_jobs sorted_jobs BdPartnerships
     ++ group_jobs sorted_jobs Other
     ≡ₚ sorted_jobs
  /\ (forall c, sublist (group_jobs sorted_jobs c) sorted_jobs).
Proof.
  assert (Hg : forall c, group_jobs sorted_jobs c
               = filter (fun job => categorize (title job) = c) sorted_jobs).
  { intros c. unfold group_jobs. by rewrite group_loop_spec. }
  split; [done|]. split.
  - rewrite !Hg. apply category_filters_permutation.
  - intros c. rewrite Hg. apply sublist_filter.
Qed.

Local Open Scope Z_scope.

Lemma days_between_le (now d n : Z) :
  days_between now d <= n <-> now - d < (n + 1) * us_per_day.
Proof.
  unfold days_between. pose proof us_per_day_val as Hday.
  pose proof (Z.div_mod (now - d) us_per_day ltac:(lia)) as Hdm.
  pose proof (Z.mod_pos_bound (now - d) us_per_day ltac:(lia)) as Hm.
  rewrite Hday in *. lia.
Qed.

Lemma days_suffix_not_new (n : Z) : str_of_int n +:+ "d ago" <> "New"%string.
Proof.
  intros Heq. apply (f_equal String.length) in Heq.
  rewrite length_string_app in Heq. cbn in Heq. lia.
Qed.

(** X15: the date badge goes by whole days elapsed, rounded down: a posting
    less than 4 days old (or dated in the future) is "date-new", one less
    than 15 days old "date-recent", anything older or undated "date-older";
    the text is "New" exactly within the first 24 hours. *)
Theorem date_badge_thresholds (now : datetime) (posted : option datetime) :
  match posted with
  | None => date_badge now posted = ("date-older", "Unknown")%string
  | Some d =>
      (date_badge now posted).1
      = (if now - d <? 4 * us_per_day then "date-new"%string
         else if now - d <? 15 * us_per_day then "date-recent"%string
              else "date-older"%string)
      /\ ((date_badge now posted).2 = "New"%string
          <-> 0 <= now - d < us_per_day)
  end.
Proof.
  destruct posted as [d|]; [|done]. unfold date_badge.
  pose proof (days_between_le now d 3) as H3.
  pose proof (days_between_le now d 14) as H14.
  pose proof (days_between_le now d 0) as H0.
  pose proof (days_between_le now d (-1)) as Hneg.
  pose proof us_per_day_val as Hday.
  destruct (Z.leb_spec (days_between now d) 3) as [Hle3 | Hgt3].
  - cbn [fst snd]. split.
    + destruct (Z.ltb_spec (now - d) (4 * us_per_day)); [done | lia].
    + destruct (Z.eqb_spec (days_between now d) 0) as [Hz | Hnz].
      * split; [lia | done].
      * split; [by intros ?%days_suffix_not_new | lia].
  - destruct (Z.leb_spec (days_between now d) 14) as [Hle14 | Hgt14];
      cbn [fst snd].
    + split.
      * destruct (Z.ltb_spec (now - d) (4 * us_per_day)); [lia|].
        destruct (Z.ltb_spec (now - d) (15 * us_per_day)); [done | lia].
      * split; [by intros ?%days_suffix_not_new | lia].
    + split.
      * destruct (Z.ltb_spec (now - d) (4 * us_per_day)); [lia|].
        destruct (Z.ltb_spec (now - d) (15 * us_per_day)); [lia | done].
      * split; [by intros ?%days_suffix_not_new | lia].
Qed.

End Report.

(** ** The scraper loop *)

Section ScraperProps.

Local Open Scope list_scope.

Variable urljoin : string -> string -> string.
Variable strptime : string -> string -> option datetime.
Variable max_age_days : Z.

Lemma remote3_card_some (c : card) (n1 n2 : datetime) (job : JobOffer) :
  remote3_card urljoin strptime max_age_days n1 n2 c = Ret (Some job) ->
  built_from urljoin strptime max_age_days c n1 n2 job.
Proof.
  unfold remote3_card, built_from.
  destruct (card_title c) as [t|]; [|done].
  destruct (is_relevant_job t "") eqn:Hrel; cbn [negb]; [|done].
  assert (Hdate : match card_date c with Some x => x | None => "" end
                  = default "" (card_date c)) by by destruct (card_date c).
  rewrite Hdate.
  destruct (parse_relative_date strptime n1 _) as [posted|e] eqn:Hp;
    cbn [bind]; [|done].
  destruct (is_recent n2 max_age_days posted) as [[]|e] eqn:Hr;
    cbn [bind]; [|done|done].
  intros [= <-]. cbn.
  repeat split; try done.
Qed.

Lemma remote3_loop_spec (xs : list (card * (datetime * datetime)))
      (jobs : list JobOffer) (n : nat) :
  exists added,
    foldl (remote3_step urljoin strptime max_age_days) (jobs, n) xs
    = (jobs ++ added, (n + length added)%nat)
    /\ (length added <= length xs)%nat
    /\ Forall (fun job => exists x, x ∈ xs
                          /\ built_from urljoin strptime max_age_days
                               x.1 x.2.1 x.2.2 job) added.
Proof.
  revert jobs n. induction xs as [|x rest IH]; intros jobs n.
  - exists []. cbn. by rewrite app_nil_r, Nat.add_0_r.
  - cbn [foldl]. unfold remote3_step at 2. cbn [fst snd].
    destruct (remote3_card _ _ _ _ _ _) as [[job|]|e] eqn:Hc.
    + destruct (IH (jobs ++ [job]) (S n)) as (added & -> & Hlen & Hall).
      exists (job :: added). split; [|split].
      * rewrite <- app_assoc. cbn. f_equal. lia.
      * cbn. lia.
      * constructor.
        -- exists x. split; [left | by apply remote3_card_some].
        -- eapply Forall_impl; [exact Hall|].
           intros j (y & Hy & Hb). exists y. split; [by right | done].
    + destruct (IH jobs n) as (added & -> & Hlen & Hall).
      exists added. split; [done|]. split; [cbn; lia|].
      eapply Forall_impl; [exact Hall|].
      intros j (y & Hy & Hb). exists y. split; [by right | done].
    + destruct (IH jobs n) as (added & -> & Hlen & Hall).
      exists added. split; [done|]. split; [cbn; lia|].
      eapply Forall_impl; [exact Hall|].
      intros j (y & Hy & Hb). exists y. split; [by right | done].
Qed.

(** X16: [scrape_remote3] only appends to [self.jobs]: the postings it had
    stay in place, the count it prints is the number of postings added, at
    most 50 and none when the page could not be fetched; each added posting
    comes from one of the first 50 cards, has a title that passes the
    relevance filter and a date that passes the recency test, and carries
    the defaults of a fresh posting ([is_new], no [first_seen]). *)
Theorem scrape_remote3_appends (page : option (list card))
        (clock : nat -> datetime * datetime) (jobs : list JobOffer) :
  exists added,
    scrape_remote3 urljoin strptime max_age_days page clock jobs
    = (jobs ++ added, length added)
    /\ (length added <= 50)%nat
    /\ (page = None -> added = [])
    /\ Forall (fun job =>
                 exists i c, page ≫= (.!! i) = Some c /\ (i < 50)%nat
                             /\ built_from urljoin strptime max_age_days c
                                  (clock i).1 (clock i).2 job)
              added.
Proof.
  destruct page as [cards|]; cbn [scrape_remote3].
  - destruct (remote3_loop_spec (imap (fun i c => (c, clock i))
                                   (take 50 cards)) jobs 0)
      as (added & -> & Hlen & Hall).
    exists added. split; [done|]. split; [|split; [done|]].
    + rewrite length_imap, length_take in Hlen. lia.
    + eapply Forall_impl; [exact Hall|].
      intros job (x & Hx & Hb).
      apply list_elem_of_lookup in Hx as [i Hi].
      rewrite list_lookup_imap in Hi.
      destruct (take 50 cards !! i) as [c|] eqn:Hc; [|done].
      cbn in Hi. injection Hi as <-. cbn [fst snd] in Hb.
      exists i, c. cbn. pose proof (lookup_lt_Some _ _ _ Hc) as Hlt.
      rewrite length_take in Hlt.
      apply lookup_take_Some in Hc as [Hc _].
      split; [done|]. split; [lia | done].
  - exists []. rewrite app_nil_r. split; [done|].
    split; [cbn; lia|]. split; [done | constructor].
Qed.

Lemma filter_absent_empty (jobs : list JobOffer) :
  filter (fun job => (∅ : gmap string (gmap string string))
                       !! job_key job = None) jobs = jobs.
Proof.
  induction jobs as [|j rest IH]; [done|].
  rewrite filter_cons_True by apply lookup_empty. by rewrite IH.
Qed.

Lemma scraped_postings_are_fresh (page : option (list card))
      (clock : nat -> datetime * datetime) :
  Forall (fun job => is_new job = true)
         (scrape_remote3 urljoin strptime max_age_days page clock []).1.
Proof.
  destruct page as [cards|]; cbn [scrape_remote3]; [|constructor].
  destruct (remote3_loop_spec (imap (fun i c => (c, clock i))
                                 (take 50 cards)) [] 0)
    as (added & -> & _ & Hall).
  cbn. eapply Forall_impl; [exact Hall|].
  intros job (x & _ & Hb). unfold built_from in Hb. tauto.
Qed.

(** X17: a run that collects its postings with [scrape_remote3] reports as
    new exactly the deduplicated postings whose key the loaded registry
    lacks; with an empty registry, as on a first run or after a registry
    file that could not be used, every posting of the run is reported
    new. *)
Theorem scrape_then_finish (seen : gmap string (gmap string string))
        (page : option (list card)) (clock : nat -> datetime * datetime)
        (today : string) :
  let collected :=
    (scrape_remote3 urljoin strptime max_age_days page clock []).1 in
  let r := finish_run seen collected today in
  new_jobs_count (run_jobs r)
  = length (filter (fun job => seen !! job_key job = None)
              (dedupe collected))
  /\ (seen = ∅ -> new_jobs_count (run_jobs r) = length (run_jobs r)).
Proof.
  cbv zeta.
  assert (Hcount :
    new_jobs_count
      (run_jobs (finish_run seen
                   (scrape_remote3 urljoin strptime max_age_days page clock
                      []).1 today))
    = length (filter (fun job => seen !! job_key job = None)
                (dedupe (scrape_remote3 urljoin strptime max_age_days page
                           clock []).1))).
  { rewrite finish_run_jobs. apply new_jobs_count_mark.
    eapply Forall_sublist_new; [apply dedup_loop_sublist|].
    apply scraped_postings_are_fresh. }
  split; [exact Hcount|]. intros ->. rewrite Hcount.
  rewrite finish_run_jobs. unfold _mark_seen_jobs. rewrite length_map.
  by rewrite filter_absent_empty.
Qed.

End ScraperProps.

(** ** Closed instances of the further properties *)

Section MoreInstances.

Local Open Scope list_scope.
Local Open Scope Z_scope.

Lemma is_relevant_job_case_insensitive_witness :
  is_relevant_job "Growth Lead" "" = is_relevant_job "GROWTH LEAD" "".
Proof.
  apply (is_relevant_job_case_insensitive "Growth Lead" "GROWTH LEAD" "" "");
    reflexivity.
Defined.

Lemma waived_posting_is_accepted_witness :
  is_relevant_job "Senior Engineer, Growth" "" = true
  <-> exclusion_loop (lower ("Senior Engineer, Growth" +:+ " " +:+ ""))
        EXCLUDE_KEYWORDS = None.
Proof.
  apply (waived_posting_is_accepted "Senior Engineer, Growth" "" "engineer").
  - apply list_in_spec. reflexivity.
  - reflexivity.
Defined.




Lemma run_summary_witness :
  new_jobs_count
    (run_jobs (finish_run ∅ [offer "A" "X" "a"; offer "B" "Y" "b"]
                 "2024-06-01"))
  = length (filter (fun job => (∅ : gmap string (gmap string string))
                                 !! job_key job = None)
              (dedupe [offer "A" "X" "a"; offer "B" "Y" "b"])).
Proof.
  apply (proj1 (run_summary ∅ [offer "A" "X" "a"; offer "B" "Y" "b"]
                  "2024-06-01" ltac:(repeat constructor))).
Defined.

End MoreInstances.

(** ** What the unit patterns accept *)

Section PatternLanguage.

Lemma startswith_app_l (p q s : string) :
  startswith (p +:+ q) s = true -> startswith p s = true.
Proof.
  rewrite !startswith_spec. intros [b ->]. exists (q +:+ b).
  induction p as [|c p IH]; [done|].
  change (String c ((p +:+ q) +:+ b) = String c (p +:+ q +:+ b)).
  by rewrite IH.
Qed.

Lemma star_space_inv {A : Type} (s : string) (k : string -> option A)
      (a : A) :
  star_cls is_space s k = Some a ->
  exists ws s', s = ws +:+ s' /\ all_space ws = true /\ k s' = Some a.
Proof.
  induction s as [|c t IH]; cbn [star_cls].
  - intros Hk. by exists EmptyString, EmptyString.
  - destruct (is_space c) eqn:Hc;
      [|intros Hk; by exists EmptyString, (String c t)].
    destruct (star_cls is_space t k) as [a'|] eqn:Ht.
    + intros [= <-]. destruct (IH eq_refl) as (ws & s' & -> & Hws & Hk).
      exists (String c ws), s'. cbn. by rewrite Hc, Hws.
    + intros Hk. by exists EmptyString, (String c t).
Qed.

(** The greedy star succeeds as soon as its continuation succeeds after
    some run of characters of the class. *)
Lemma star_cls_some {A : Type} (cls : ascii -> bool) (all : string -> bool)
      (Hall : forall c t, all (String c t) = cls c && all t)
      (pre s' : string) (k : string -> option A) :
  all pre = true -> is_Some (k s') -> is_Some (star_cls cls (pre +:+ s') k).
Proof.
  intros Hpre Hk. induction pre as [|c p IH].
  - change (EmptyString +:+ s') with s'.
    destruct s' as [|c t]; cbn [star_cls]; [done|].
    destruct (cls c); [|done]. by destruct (star_cls cls t k).
  - rewrite Hall in Hpre. apply andb_true_iff in Hpre as [Hc Hp].
    change (String c p +:+ s') with (String c (p +:+ s')).
    cbn [star_cls]. rewrite Hc. destruct (IH Hp) as [a ->]. done.
Qed.

Lemma keyed_lit (key : string) : keyed_by (Lit key) key.
Proof.
  split.
  - intros s cap k a. cbn [rmatch]. by destruct (startswith key s).
  - intros s cap k Hs Hk. cbn [rmatch]. rewrite Hs. apply Hk.
Qed.

Lemma keyed_alt (key tail : string) (units : regex) :
  keyed_by units key -> keyed_by (Alt (Lit (key +:+ tail)) units) key.
Proof.
  intros [HA HB]. split.
  - intros s cap k a. cbn [rmatch].
    destruct (startswith (key +:+ tail) s) eqn:Hl.
    + intros _. by apply (startswith_app_l key tail).
    + apply HA.
  - intros s cap k Hs Hk. cbn [rmatch].
    destruct (startswith (key +:+ tail) s).
    + by destruct (Hk (drop_chars (String.length (key +:+ tail)) s)) as [a ->].
    + by apply HB.
Qed.

Lemma patterns_keyed (pat : regex) (u : time_unit) :
  (pat, u) ∈ patterns ->
  exists units, pat = unit_pattern units /\ keyed_by units (unit_key u)
                /\ no_group units = true.
Proof.
  unfold patterns. rewrite !elem_of_cons, elem_of_nil.
  intros [[= -> ->] | [[= -> ->] | [[= -> ->] | [[= -> ->] | []]]]];
    eexists; (split; [reflexivity|]); (split; [|reflexivity]);
    cbn [unit_key].
  - apply (keyed_alt "d" "ay"), keyed_lit.
  - apply (keyed_alt "w" "eek"), keyed_lit.
  - apply (keyed_alt "mo" "nth"), keyed_lit.
  - apply (keyed_alt "h" "our"), (keyed_alt "h" "r"), keyed_lit.
Qed.

Lemma suffix_always_matches (s : string) (cap : option string) :
  is_Some (rmatch (Seq (Star is_space) (Opt (Lit "ago"))) s cap
             (fun _ cap' => Some {| group1 := cap' |})).
Proof.
  cbn [rmatch].
  apply (star_cls_some is_space all_space (fun _ _ => eq_refl)
           EmptyString s); [done|].
  by destruct (startswith "ago" s).
Qed.

Lemma search_skip (r : regex) (pre s : string) :
  is_Some (search r s) -> is_Some (search r (pre +:+ s)).
Proof.
  intros Hs. induction pre as [|c p IH]; [done|].
  change (String c p +:+ s) with (String c (p +:+ s)). cbn [search].
  by destruct (rmatch r _ None _).
Qed.

Lemma unit_pattern_sound (units : regex) (key s : string) (m : match_obj) :
  keyed_by units key -> no_group units = true ->
  search (unit_pattern units) s = Some m ->
  exists pre ds ws rest,
    s = pre +:+ ds +:+ ws +:+ key +:+ rest
    /\ ds <> EmptyString /\ all_digits ds = true /\ all_space ws = true
    /\ group1 m = Some ds.
Proof.
  intros [HA _] Hng. induction s as [|c t IH]; cbn [search].
  - cbn. done.
  - destruct (rmatch (unit_pattern units) (String c t) None _)
      as [m'|] eqn:Hm.
    + intros [= <-]. clear IH.
      assert (Htail : no_group (Seq (Star is_space) (Opt (Lit "ago"))) = true)
        by reflexivity.
      revert Hm Htail. unfold unit_pattern.
      generalize (Seq (Star is_space) (Opt (Lit "ago"))). intros tail Hm Htail.
      cbn [rmatch] in Hm. destruct (is_digit c) eqn:Hc; [|done].
      apply star_digits_inv in Hm as (ds & s1 & -> & Hds & Hm).
      apply star_space_inv in Hm as (ws & s2 & -> & Hws & Hm).
      pose proof Hm as Hkey. apply HA, startswith_spec in Hkey as [rest ->].
      apply (rmatch_no_group units Hng) in Hm as [s3 Hm].
      apply (rmatch_no_group tail Htail) in Hm as [s4 Hm].
      injection Hm as <-.
      exists EmptyString, (String c ds), ws, rest. cbn [group1].
      change (String c (ds +:+ ws +:+ key +:+ rest))
        with (String c ds +:+ (ws +:+ key +:+ rest)).
      rewrite consumed_prefix. cbn [all_digits]. by rewrite Hc, Hds.
    + intros Hs. destruct (IH Hs) as (pre & ds & ws & rest & -> & H).
      by exists (String c pre), ds, ws, rest.
Qed.

Lemma unit_pattern_complete (units : regex) (key : string)
      (pre ds ws rest : string) :
  keyed_by units key ->
  ds <> EmptyString -> all_digits ds = true -> all_space ws = true ->
  is_Some (search (unit_pattern units)
             (pre +:+ ds +:+ ws +:+ key +:+ rest)).
Proof.
  intros [_ HB] Hne Hds Hws. apply search_skip.
  destruct ds as [|c ds]; [done|]. cbn [all_digits] in Hds.
  apply andb_true_iff in Hds as [Hc Hds].
  change (String c ds +:+ ws +:+ key +:+ rest)
    with (String c (ds +:+ ws +:+ key +:+ rest)).
  cbn [search].
  assert (Hm : is_Some (rmatch (unit_pattern units)
                          (String c (ds +:+ ws +:+ key +:+ rest)) None
                          (fun _ cap => Some {| group1 := cap |}))).
  { unfold unit_pattern. cbn [rmatch]. rewrite Hc.
    apply (star_cls_some is_digit all_digits (fun _ _ => eq_refl)); [done|].
    apply (star_cls_some is_space all_space (fun _ _ => eq_refl)); [done|].
    apply HB.
    - apply startswith_spec. by exists rest.
    - intros s'. apply suffix_always_matches. }
  by destruct Hm as [m ->].
Qed.

(** X18: each unit pattern matches exactly the texts that contain a
    non-empty run of digits, then any whitespace, then the first letters of
    the unit ("d", "w", "mo", "h"): the longer spellings and the "ago" are
    never needed.  The number it captures is such a run of digits. *)
Theorem unit_patterns_language (pat : regex) (u : time_unit) (s : string) :
  (pat, u) ∈ patterns ->
  (forall m, search pat s = Some m ->
             exists pre ds ws rest,
               s = pre +:+ ds +:+ ws +:+ unit_key u +:+ rest
               /\ ds <> EmptyString /\ all_digits ds = true
               /\ all_space ws = true /\ group1 m = Some ds)
  /\ (forall pre ds ws rest,
        s = pre +:+ ds +:+ ws +:+ unit_key u +:+ rest ->
        ds <> EmptyString -> all_digits ds = true -> all_space ws = true ->
        is_Some (search pat s)).
Proof.
  intros Hin. destruct (patterns_keyed pat u Hin) as (units & -> & Hk & Hng).
  split.
  - intros m. by apply unit_pattern_sound.
  - intros pre ds ws rest ->. by apply unit_pattern_complete.
Qed.

End PatternLanguage.

(** ** Dated entries *)

Section DatedEntries.

Local Open Scope list_scope.

(** X19: saving keeps the registry dated: when every entry has a
    [first_seen] field before, every entry has one afterwards, and marking
    against such a registry shows the recorded date; the "Unknown" date only
    appears for an entry that came without the field. *)
Theorem registry_entries_dated (seen : gmap string (gmap string string))
        (jobs : list JobOffer) (today : string) :
  (forall k e, seen !! k = Some e -> is_Some (e !! "first_seen")) ->
  let seen' := (_save_seen_jobs seen jobs today).1 in
  (forall k e, seen' !! k = Some e -> is_Some (e !! "first_seen"))
  /\ (forall job e, seen' !! job_key job = Some e ->
                    first_seen (mark_job seen' job) = e !! "first_seen")
  /\ (forall (reg : gmap string (gmap string string)) job e,
         reg !! job_key job = Some e -> e !! "first_seen" = None ->
         first_seen (mark_job reg job) = Some "Unknown").
Proof.
  intros Hinv. cbn.
  assert (Hinv' : forall k e, foldl (save_job today) seen jobs !! k = Some e ->
                              is_Some (e !! "first_seen")).
  { intros k e Hk.
    apply save_loop_origin in Hk as [Hk | (_ & j & _ & _ & ->)].
    - by apply (Hinv k).
    - destruct (new_entry_fields today j) as [-> _]. done. }
  split; [done|]. split.
  - intros job e Hk. rewrite (mark_job_present _ _ e Hk). cbn.
    by destruct (Hinv' _ _ Hk) as [d ->].
  - intros reg job e Hk Hnone. rewrite (mark_job_present _ _ e Hk). cbn.
    by rewrite Hnone.
Qed.

Lemma registry_entries_dated_witness :
  is_Some (new_entry "2024-06-01" (offer "A" "X" "a") !! "first_seen").
Proof.
  apply (proj1 (registry_entries_dated ∅ [offer "A" "X" "a"] "2024-06-01"
                  ltac:(intros k e Hk; rewrite lookup_empty in Hk;
                        discriminate))
           "a").
  vm_compute. reflexivity.
Defined.

Lemma unit_patterns_language_witness :
  is_Some (search day_pattern "15 december 2024").
Proof.
  apply (proj2 (unit_patterns_language day_pattern Days "15 december 2024"
                  ltac:(left))
           "" "15" " " "ecember 2024"); first [reflexivity | discriminate].
Defined.

End DatedEntries.
